(** * Arc aggregation engine (lib/arc-utils): a shallow embedding

    The engine clusters museum-object records into arcs, aggregates them
    per country and selects arcs by zoom band.  JavaScript numbers are
    IEEE 754 binary64 values, modelled by the Standard Library's
    [spec_float] with precision 53 and maximal exponent 1024; a [Map] is
    an association list in insertion order, which is the order in which
    [Map.prototype.values] enumerates it. *)

From Stdlib Require Import ZArith NArith List Bool String Ascii Lia.
From Stdlib Require Import SpecFloat DecimalString.
From Stdlib Require Import Sorted Permutation.
Import ListNotations.

Local Open Scope Z_scope.

(** ** JavaScript numbers *)

Module JS.

Definition number : Type := spec_float.

Definition prec : Z := 53.
Definition emax : Z := 1024.

Definition NaN : number := S754_nan.

(** An integer literal; [0] is the positive zero. *)
Definition ofZ (z : Z) : number := binary_normalize prec emax z 0 false.

Definition add (x y : number) : number := SFadd prec emax x y.
Definition div (x y : number) : number := SFdiv prec emax x y.

(** A decimal literal [n / 10^k], correctly rounded. *)
Definition dec (n : Z) (k : nat) : number := div (ofZ n) (ofZ (10 ^ Z.of_nat k)).

(** [x === y] on numbers: false on NaN, true on [0 === -0]. *)
Definition strictEq (x y : number) : bool := SFeqb x y.
Definition le (x y : number) : bool := SFleb x y.
Definition ge (x y : number) : bool := SFleb y x.

Definition isNaN (x : number) : bool :=
  match x with S754_nan => true | _ => false end.

(** ToBoolean on a number: [0], [-0] and NaN are falsy. *)
Definition truthy (x : number) : bool :=
  match x with S754_nan | S754_zero _ => false | _ => true end.

(** [10^21 <= m * 2^e], the threshold above which [toFixed] gives up the
    fixed notation. *)
Definition atLeast1e21 (m : positive) (e : Z) : bool :=
  if 0 <=? e then 10 ^ 21 <=? Z.pos m * 2 ^ e
  else 10 ^ 21 * 2 ^ (- e) <=? Z.pos m.

(** The integer [n] for which [n / 100 - m * 2^e] is closest to zero, the
    larger one on a tie (Number.prototype.toFixed, step 10.a). *)
Definition scaled100 (m : positive) (e : Z) : Z :=
  if 0 <=? e then Z.pos m * 2 ^ e * 100
  else (2 * (Z.pos m * 100) + 2 ^ (- e)) / 2 ^ (- e + 1).

Definition digits (n : Z) : string := NilZero.string_of_uint (N.to_uint (Z.to_N n)).

Definition twoDigits (n : Z) : string :=
  if n <? 10 then append "0" (digits n) else digits n.

Definition fixed2 (n : Z) : string :=
  append (digits (n / 100)) (append "." (twoDigits (n mod 100))).

Section ToFixed.

(** Number::toString on a finite value of magnitude at least [10^21].
    ECMAScript leaves the last digit of its result to the engine, so the
    model takes it as a parameter. *)
Variable largeToString : positive -> Z -> string.

(** [x.toFixed(2)] *)
Definition toFixed2 (x : number) : string :=
  match x with
  | S754_nan => "NaN"
  | S754_infinity false => "Infinity"
  | S754_infinity true => "-Infinity"
  | S754_zero _ => "0.00"
  | S754_finite s m e =>
      append (if s then "-" else "")
        (if atLeast1e21 m e then largeToString m e
         else fixed2 (scaled100 m e))
  end%string.

End ToFixed.

End JS.

(** ** Records *)

(** Modelled from the spec: the type of a coordinate field of
    [MuseumObject], whose declaration (module [../types]) is not among the
    sources.  A coordinate is optional (§3) and the engine tests it for
    both [undefined] and [null]. *)
Inductive value : Type :=
  | Undefined
  | Null
  | Num (x : JS.number).

(** Modelled from the spec: the declaration of [MuseumObject] (module
    [../types]) is not among the sources.  The fields are the ones the
    engine reads from [obj.attributes]: the origin and institution
    coordinates and the labels, which are optional strings (§3, Record). *)
Module Attributes.
Record t : Type := mk {
  longitude : value;
  latitude : value;
  institution_longitude : value;
  institution_latitude : value;
  country_en : option string;
  city_en : option string;
  institution_city_en : option string
}.
End Attributes.

Record MuseumObject : Type := mkObject {
  objectId : Z;
  attributes : Attributes.t
}.

Inductive Level : Type := country | city | object.

Module ClusteredArc.
Record t : Type := mk {
  id : string;
  sourcePosition : value * value;
  targetPosition : value * value;
  count : Z;
  objects : list MuseumObject;
  level : option Level
}.
End ClusteredArc.

Module CountryAggregation.
Record t : Type := mk {
  country : string;
  count : Z;
  latitude : JS.number;
  longitude : JS.number;
  objects : list MuseumObject
}.
End CountryAggregation.

Record Bounds : Type := mkBounds {
  north : JS.number;
  south : JS.number;
  east : JS.number;
  west : JS.number
}.

(** ** Coercions of the language *)

(** ToNumber on a coordinate: [undefined] is NaN and [null] is [+0]. *)
Definition toNumber (v : value) : JS.number :=
  match v with
  | Undefined => JS.NaN
  | Null => JS.ofZ 0
  | Num x => x
  end.

(** [v !== undefined && v !== null] *)
Definition present (v : value) : bool :=
  match v with
  | Num _ => true
  | _ => false
  end.

(** The global [isNaN(v)] *)
Definition isNaN (v : value) : bool := JS.isNaN (toNumber v).

(** ToBoolean on a coordinate *)
Definition truthy (v : value) : bool :=
  match v with
  | Num x => JS.truthy x
  | _ => false
  end.

(** [s || "Unknown"] on an optional string: the empty string is falsy. *)
Definition orUnknown (s : option string) : string :=
  match s with
  | Some t => if String.eqb t "" then "Unknown" else t
  | None => "Unknown"
  end%string.

(** ToBoolean on a string *)
Definition nonEmpty (s : string) : bool := negb (String.eqb s "").

(** ** [Map<string, V>] in insertion order *)

Section StringMap.

Context {V : Type}.

Definition Map : Type := list (string * V).

Fixpoint get (k : string) (m : Map) : option V :=
  match m with
  | [] => None
  | (k', v) :: m' => if String.eqb k k' then Some v else get k m'
  end.

Definition has (k : string) (m : Map) : bool :=
  match get k m with
  | Some _ => true
  | None => false
  end.

(** The entry of [k] mutated in place by [f]; its position is kept. *)
Fixpoint update (k : string) (f : V -> V) (m : Map) : Map :=
  match m with
  | [] => []
  | (k', v) :: m' =>
      if String.eqb k k' then (k', f v) :: m' else (k', v) :: update k f m'
  end.

(** [m.set(k, v)]: an existing key keeps its position, a new one goes last. *)
Definition set (k : string) (v : V) (m : Map) : Map :=
  if has k m then update k (fun _ => v) m else m ++ [(k, v)].

(** [Array.from(m.values())] *)
Definition values (m : Map) : list V := List.map snd m.

End StringMap.

Arguments Map V : clear implicits.

(** ** [Array.prototype.sort] and [Array.prototype.slice] *)

Section Arrays.

Context {A : Type}.

(** [compare a b > 0] asks for [a] after [b]; the sort is stable, so [x],
    which comes before every element of [l], goes before the first one
    that is not required before it. *)
Fixpoint sortInsert (compare : A -> A -> Z) (x : A) (l : list A) : list A :=
  match l with
  | [] => [x]
  | y :: l' =>
      if 0 <? compare x y then y :: sortInsert compare x l' else x :: l
  end.

Definition sort (compare : A -> A -> Z) (l : list A) : list A :=
  fold_right (sortInsert compare) [] l.

(** [l.slice(0, e)] for an integer [e]: a negative end counts from the
    end of the array. *)
Definition slice0 (l : list A) (e : Z) : list A :=
  let len := Z.of_nat (List.length l) in
  let final := if e <? 0 then Z.max (len + e) 0 else Z.min e len in
  firstn (Z.to_nat final) l.

End Arrays.

(** ** The engine *)

Section Engine.

Variable largeToString : positive -> Z -> string.

(** [v.toFixed(2)]; the engine calls it on coordinates that passed
    [validCoordinates], which are numbers. *)
Definition toFixed2 (v : value) : string :=
  JS.toFixed2 largeToString (toNumber v).

(** The coordinate test shared by [countUniqueArcs], [clusterArcs] and
    [clusterArcsByCity]. *)
Definition validCoordinates (obj : MuseumObject) : bool :=
  let a := attributes obj in
  present (Attributes.institution_longitude a) &&
  present (Attributes.institution_latitude a) &&
  present (Attributes.longitude a) &&
  present (Attributes.latitude a) &&
  negb (isNaN (Attributes.longitude a)) &&
  negb (isNaN (Attributes.latitude a)) &&
  negb (isNaN (Attributes.institution_longitude a)) &&
  negb (isNaN (Attributes.institution_latitude a)).

Definition sourcePos (obj : MuseumObject) : value * value :=
  (Attributes.longitude (attributes obj), Attributes.latitude (attributes obj)).

Definition targetPos (obj : MuseumObject) : value * value :=
  (Attributes.institution_longitude (attributes obj),
   Attributes.institution_latitude (attributes obj)).

(** [a === b] on coordinates: no coercion between the three kinds *)
Definition strictEq (a b : value) : bool :=
  match a, b with
  | Num x, Num y => JS.strictEq x y
  | Undefined, Undefined => true
  | Null, Null => true
  | _, _ => false
  end.

(** The template string [`${a},${b}-${c},${d}`] *)
Definition pairKey (a b c d : string) : string :=
  (a ++ "," ++ b ++ "-" ++ c ++ "," ++ d)%string.

(** *** countUniqueArcs *)

(** [Set.prototype.add] *)
Definition setAdd (k : string) (s : list string) : list string :=
  if existsb (String.eqb k) s then s else s ++ [k].

(** Source and target are the same once rounded to two decimals: the
    test of [countUniqueArcs], on the [toFixed(2)] strings. *)
Definition roundedNoMovement (obj : MuseumObject) : bool :=
  String.eqb (toFixed2 (fst (sourcePos obj))) (toFixed2 (fst (targetPos obj))) &&
  String.eqb (toFixed2 (snd (sourcePos obj))) (toFixed2 (snd (targetPos obj))).

Definition countUniqueArcs_step (uniqueArcs : list string) (obj : MuseumObject)
  : list string :=
  if roundedNoMovement obj then uniqueArcs
  else
    setAdd (pairKey (toFixed2 (fst (sourcePos obj))) (toFixed2 (snd (sourcePos obj)))
                    (toFixed2 (fst (targetPos obj))) (toFixed2 (snd (targetPos obj))))
           uniqueArcs.

Definition countUniqueArcs (objs : list MuseumObject) : Z :=
  if Nat.eqb (List.length objs) 0 then 0
  else
    let validObjects := filter validCoordinates objs in
    Z.of_nat (List.length (fold_left countUniqueArcs_step validObjects [])).

(** *** clusterArcs *)

(** [cluster.count++; cluster.objects.push(obj)] *)
Definition addMember (obj : MuseumObject) (c : ClusteredArc.t) : ClusteredArc.t :=
  ClusteredArc.mk (ClusteredArc.id c)
    (ClusteredArc.sourcePosition c) (ClusteredArc.targetPosition c)
    (ClusteredArc.count c + 1) (ClusteredArc.objects c ++ [obj])
    (ClusteredArc.level c).

(** The two branches on [clusters.has(key)] *)
Definition addToCluster (key : string) (lvl : Level) (obj : MuseumObject)
  (clusters : Map ClusteredArc.t) : Map ClusteredArc.t :=
  if has key clusters then update key (addMember obj) clusters
  else set key
         (ClusteredArc.mk key (sourcePos obj) (targetPos obj) 1 [obj] (Some lvl))
         clusters.

Definition arcKey (obj : MuseumObject) : string :=
  pairKey (toFixed2 (fst (sourcePos obj))) (toFixed2 (snd (sourcePos obj)))
          (toFixed2 (fst (targetPos obj))) (toFixed2 (snd (targetPos obj))).

(** Source and target are the same: [===] on the coordinates themselves *)
Definition noMovement (obj : MuseumObject) : bool :=
  strictEq (fst (sourcePos obj)) (fst (targetPos obj)) &&
  strictEq (snd (sourcePos obj)) (snd (targetPos obj)).

(** The body of the [forEach]; nothing in it throws on numbers, so the
    [catch] branch is never taken. *)
Definition clusterArcs_step (clusters : Map ClusteredArc.t) (obj : MuseumObject)
  : Map ClusteredArc.t :=
  if noMovement obj then clusters
  else addToCluster (arcKey obj) object obj clusters.

(** [(a, b) => b.count - a.count] *)
Definition byCountDesc (a b : ClusteredArc.t) : Z :=
  ClusteredArc.count b - ClusteredArc.count a.

(** The size cap at the end of both clusterers *)
Definition capArcs (arcs : list ClusteredArc.t) (maxArcs : Z) : list ClusteredArc.t :=
  if Z.of_nat (List.length arcs) >? maxArcs then slice0 (sort byCountDesc arcs) maxArcs
  else arcs.

(** The arcs before the cap: [Array.from(clusters.values())] *)
Definition objectClusters (objs : list MuseumObject) : list ClusteredArc.t :=
  values (fold_left clusterArcs_step (filter validCoordinates objs) []).

(** [maxArcs] is an arc count, an integer at every call site; its default
    of 2000 (500 for cities) stands for an omitted argument. *)
Definition clusterArcs (objs : list MuseumObject) (maxArcs : Z)
  : list ClusteredArc.t :=
  let validObjects := filter validCoordinates objs in
  if Nat.eqb (List.length validObjects) 0 then []
  else capArcs (values (fold_left clusterArcs_step validObjects [])) maxArcs.

(** *** clusterArcsByCity *)

Definition validCity (obj : MuseumObject) : bool :=
  validCoordinates obj &&
  match Attributes.city_en (attributes obj) with
  | Some s => nonEmpty s
  | None => false
  end.

Definition cityKey (sourceCity targetCity : string) : string :=
  (sourceCity ++ "-to-" ++ targetCity)%string.

Definition clusterArcsByCity_step (cityClusters : Map ClusteredArc.t)
  (obj : MuseumObject) : Map ClusteredArc.t :=
  let sourceCity := orUnknown (Attributes.city_en (attributes obj)) in
  let targetCity := orUnknown (Attributes.institution_city_en (attributes obj)) in
  if String.eqb sourceCity "Unknown" || String.eqb targetCity "Unknown"
     || String.eqb sourceCity targetCity
  then cityClusters
  else addToCluster (cityKey sourceCity targetCity) city obj cityClusters.

Definition cityClusters (objs : list MuseumObject) : list ClusteredArc.t :=
  values (fold_left clusterArcsByCity_step (filter validCity objs) []).

Definition clusterArcsByCity (objs : list MuseumObject) (maxArcs : Z)
  : list ClusteredArc.t :=
  let validObjects := filter validCity objs in
  if Nat.eqb (List.length validObjects) 0 then []
  else capArcs (values (fold_left clusterArcsByCity_step validObjects [])) maxArcs.

(** *** getArcsByZoomLevel *)

(** The bounds test of the detailed view; [>=] and [<=] coerce the
    coordinate with ToNumber. *)
Definition inBounds (bounds : Bounds) (obj : MuseumObject) : bool :=
  let a := attributes obj in
  JS.ge (toNumber (Attributes.latitude a)) (south bounds) &&
  JS.le (toNumber (Attributes.latitude a)) (north bounds) &&
  JS.ge (toNumber (Attributes.longitude a)) (west bounds) &&
  JS.le (toNumber (Attributes.longitude a)) (east bounds).

(** The defaults [objects = []] and [zoom = 0] stand for omitted
    arguments; [bounds] is optional. *)
Definition getArcsByZoomLevel (objs : list MuseumObject) (zoom : JS.number)
  (bounds : option Bounds) : list ClusteredArc.t :=
  if Nat.eqb (List.length objs) 0 then []
  else if JS.le zoom (JS.ofZ 4) then clusterArcs objs 100
  else if JS.le zoom (JS.ofZ 8) then clusterArcsByCity objs 500
  else
    let objectsToProcess :=
      match bounds with
      | Some b => filter (inBounds b) objs
      | None => objs
      end in
    let maxArcs := if JS.ge zoom (JS.ofZ 12) then 2000 else 1000 in
    clusterArcs objectsToProcess maxArcs.

End Engine.

(** *** aggregateByCountry *)

(** [aggregation.count++; aggregation.objects.push(obj)] followed by the
    centroid update. *)
Definition addToCountry (obj : MuseumObject) (aggregation : CountryAggregation.t)
  : CountryAggregation.t :=
  let lat := Attributes.latitude (attributes obj) in
  let lng := Attributes.longitude (attributes obj) in
  let count := CountryAggregation.count aggregation + 1 in
  let objects := CountryAggregation.objects aggregation ++ [obj] in
  let latitude := CountryAggregation.latitude aggregation in
  let longitude := CountryAggregation.longitude aggregation in
  if truthy lat && truthy lng then
    if JS.strictEq latitude (JS.ofZ 0) && JS.strictEq longitude (JS.ofZ 0) then
      CountryAggregation.mk (CountryAggregation.country aggregation) count
        (toNumber lat) (toNumber lng) objects
    else
      CountryAggregation.mk (CountryAggregation.country aggregation) count
        (JS.div (JS.add latitude (toNumber lat)) (JS.ofZ 2))
        (JS.div (JS.add longitude (toNumber lng)) (JS.ofZ 2)) objects
  else
    CountryAggregation.mk (CountryAggregation.country aggregation) count
      latitude longitude objects.

Definition aggregateByCountry_step (countryMap : Map CountryAggregation.t)
  (obj : MuseumObject) : Map CountryAggregation.t :=
  let country := orUnknown (Attributes.country_en (attributes obj)) in
  if negb (nonEmpty country) || String.eqb country "Unknown" then countryMap
  else
    let countryMap' :=
      if has country countryMap then countryMap
      else set country
             (CountryAggregation.mk country 0 (JS.ofZ 0) (JS.ofZ 0) [])
             countryMap in
    update country (addToCountry obj) countryMap'.

Definition aggregateByCountry (objs : list MuseumObject)
  : list CountryAggregation.t :=
  if Nat.eqb (List.length objs) 0 then []
  else values (fold_left aggregateByCountry_step objs []).

(** ** Notions the properties are stated with *)

(** [sum(arc.count for arc in arcs)] *)
Definition sumCounts (arcs : list ClusteredArc.t) : Z :=
  fold_right (fun a s => ClusteredArc.count a + s) 0 arcs.

(** An arc carries at least one record and counts its members. *)
Definition countsMembers (a : ClusteredArc.t) : Prop :=
  1 <= ClusteredArc.count a /\
  ClusteredArc.count a = Z.of_nat (List.length (ClusteredArc.objects a)).

(** The count of the [i]-th arc of [arcs] *)
Definition countAt (arcs : list ClusteredArc.t) (i : nat) : Z :=
  match nth_error arcs i with
  | Some a => ClusteredArc.count a
  | None => 0
  end.

(** Arc [i] is kept in preference to arc [j]: it has the higher count, or
    the same count and was encountered first. *)
Definition outranks (arcs : list ClusteredArc.t) (i j : nat) : Prop :=
  countAt arcs j < countAt arcs i \/
  (countAt arcs i = countAt arcs j /\ (i < j)%nat).

(** [kept] is the list of the [k] best-ranked arcs of [arcs], best first:
    it is read off [arcs] at [k] positions that are in rank order and
    outrank every other position. *)
Definition topK (arcs kept : list ClusteredArc.t) (k : nat) : Prop :=
  exists idx : list nat,
    map Some kept = map (nth_error arcs) idx /\
    List.length idx = k /\
    StronglySorted (outranks arcs) idx /\
    forall j, (j < List.length arcs)%nat -> ~ In j idx ->
              Forall (fun i => outranks arcs i j) idx.

(** The arcs paired with their positions, from [s] on *)
Definition indexFrom (s : nat) (arcs : list ClusteredArc.t)
  : list (nat * ClusteredArc.t) :=
  combine (seq s (List.length arcs)) arcs.

(** [byCountDesc] on arcs that carry their position *)
Definition byCountDescIx (p q : nat * ClusteredArc.t) : Z :=
  byCountDesc (snd p) (snd q).

(** The rank order on arcs that carry their position *)
Definition ranksBefore (p q : nat * ClusteredArc.t) : Prop :=
  ClusteredArc.count (snd q) < ClusteredArc.count (snd p) \/
  (ClusteredArc.count (snd p) = ClusteredArc.count (snd q) /\
   (fst p < fst q)%nat).

(** The label [aggregateByCountry] groups a record under; [None] for the
    records it skips. *)
Definition countryOf (obj : MuseumObject) : option string :=
  let c := orUnknown (Attributes.country_en (attributes obj)) in
  if negb (nonEmpty c) || String.eqb c "Unknown" then None else Some c.

Definition inCountry (c : string) (obj : MuseumObject) : bool :=
  match countryOf obj with
  | Some c' => String.eqb c c'
  | None => false
  end.

(** The labels of [objs] in the order in which they are first seen *)
Definition countries_step (seen : list string) (obj : MuseumObject) : list string :=
  match countryOf obj with
  | Some c => if existsb (String.eqb c) seen then seen else seen ++ [c]
  | None => seen
  end.

Definition countries (objs : list MuseumObject) : list string :=
  fold_left countries_step objs [].

(** Coordinates the centroid update accepts: both truthy *)
Definition validOrigin (obj : MuseumObject) : bool :=
  truthy (Attributes.latitude (attributes obj)) &&
  truthy (Attributes.longitude (attributes obj)).

Definition originPoint (obj : MuseumObject) : JS.number * JS.number :=
  (toNumber (Attributes.latitude (attributes obj)),
   toNumber (Attributes.longitude (attributes obj))).

(** [(c + p) / 2] on (latitude, longitude) pairs *)
Definition average (c p : JS.number * JS.number) : JS.number * JS.number :=
  (JS.div (JS.add (fst c) (fst p)) (JS.ofZ 2),
   JS.div (JS.add (snd c) (snd p)) (JS.ofZ 2)).

(** The centroid is still the one an aggregate is created with. *)
Definition unseeded (c : JS.number * JS.number) : bool :=
  JS.strictEq (fst c) (JS.ofZ 0) && JS.strictEq (snd c) (JS.ofZ 0).

(** One record of a country seen by its centroid: a record without valid
    coordinates leaves it alone, one with valid coordinates seeds a
    centroid that is (0, 0) and is averaged into any other. *)
Definition centroid_step (c : JS.number * JS.number) (obj : MuseumObject)
  : JS.number * JS.number :=
  if validOrigin obj then
    if unseeded c then originPoint obj else average c (originPoint obj)
  else c.

Definition runningCentroid (members : list MuseumObject) : JS.number * JS.number :=
  fold_left centroid_step members (JS.ofZ 0, JS.ofZ 0).

(** The aggregate of a country with the given members *)
Definition aggregateOf (c : string) (members : list MuseumObject)
  : CountryAggregation.t :=
  CountryAggregation.mk c (Z.of_nat (List.length members))
    (fst (runningCentroid members)) (snd (runningCentroid members)) members.

(** The centroid as §4.3 of the specification words it, to compare
    [runningCentroid] with: the first point with valid coordinates seeds
    the centroid and every later one is averaged into it. *)
Definition pairwiseAverage (points : list (JS.number * JS.number))
  : JS.number * JS.number :=
  match points with
  | [] => (JS.ofZ 0, JS.ofZ 0)
  | p :: rest => fold_left average rest p
  end.

Definition specCentroid (members : list MuseumObject) : JS.number * JS.number :=
  pairwiseAverage (map originPoint (filter validOrigin members)).

(** Starting from the centroid [c], no running average over [points] is
    (0, 0) when the next point arrives. *)
Fixpoint neverUnseeded (c : JS.number * JS.number)
  (points : list (JS.number * JS.number)) : bool :=
  match points with
  | [] => true
  | p :: rest => negb (unseeded c) && neverUnseeded (average c p) rest
  end.

(** The running averages over the valid points of [members] stay away
    from (0, 0). *)
Definition staysSeeded (members : list MuseumObject) : bool :=
  match map originPoint (filter validOrigin members) with
  | [] => true
  | p :: rest => neverUnseeded p rest
  end.

(** The origin is a point of [bounds]: both coordinates are numbers and
    lie in the closed rectangle. *)
Definition originWithin (bounds : Bounds) (obj : MuseumObject) : bool :=
  match Attributes.latitude (attributes obj),
        Attributes.longitude (attributes obj) with
  | Num lat, Num lng =>
      JS.ge lat (south bounds) && JS.le lat (north bounds) &&
      JS.ge lng (west bounds) && JS.le lng (east bounds)
  | _, _ => false
  end.

(** The records the detailed view clusters *)
Definition withinBounds (bounds : option Bounds) (objs : list MuseumObject)
  : list MuseumObject :=
  match bounds with
  | Some b => filter (originWithin b) objs
  | None => objs
  end.

Definition hasNaNComponent (bounds : Bounds) : bool :=
  JS.isNaN (north bounds) || JS.isNaN (south bounds) ||
  JS.isNaN (east bounds) || JS.isNaN (west bounds).

(** The origin latitude or longitude is [0] (or [-0]). *)
Definition isZero (v : value) : bool :=
  match v with
  | Num (S754_zero _) => true
  | _ => false
  end.

Definition zeroCoordinate (obj : MuseumObject) : bool :=
  isZero (Attributes.latitude (attributes obj)) ||
  isZero (Attributes.longitude (attributes obj)).

Definition centroid (a : CountryAggregation.t) : JS.number * JS.number :=
  (CountryAggregation.latitude a, CountryAggregation.longitude a).

(** ** Sample data *)

Module Sample.

Local Open Scope string_scope.

(** An instance of [largeToString] for the samples, none of which has a
    coordinate of that magnitude. *)
Definition largeToString : positive -> Z -> string := fun _ _ => "1e+21".

Definition record (i : Z) (origin institution : JS.number * JS.number)
  (country_en city_en institution_city_en : option string) : MuseumObject :=
  mkObject i
    (Attributes.mk (Num (fst origin)) (Num (snd origin))
       (Num (fst institution)) (Num (snd institution))
       country_en city_en institution_city_en).

(** Points are written (longitude, latitude). *)
Definition pt (lng lat : Z) : JS.number * JS.number := (JS.ofZ lng, JS.ofZ lat).

(** Origin (10.001, 20), institution (10.002, 20): both round to (10.00, 20.00). *)
Definition nearby : MuseumObject :=
  record 1 (JS.dec 10001 3, JS.ofZ 20) (JS.dec 10002 3, JS.ofZ 20)
    None None None.

Definition accraToLondon : MuseumObject :=
  record 2 (pt 5 6) (pt 0 51) (Some "Ghana") (Some "Accra") (Some "London").

Definition cairoToBerlin : MuseumObject :=
  record 3 (pt 31 30) (pt 13 52) (Some "Egypt") (Some "Cairo") (Some "Berlin").

Definition cairoToBerlin' : MuseumObject :=
  record 4 (pt 31 30) (pt 13 52) (Some "Egypt") (Some "Cairo") (Some "Berlin").

Definition limaToParis : MuseumObject :=
  record 5 (pt (-77) (-12)) (pt 2 48) (Some "Peru") (Some "Lima") (Some "Paris").

Definition stays : MuseumObject :=
  record 6 (pt 13 52) (pt 13 52) (Some "Germany") (Some "Berlin") (Some "Berlin").

Definition unlabelled : MuseumObject :=
  record 7 (pt 1 1) (pt 13 52) None None (Some "Berlin").

Definition noCoordinates : MuseumObject :=
  mkObject 8 (Attributes.mk Null Undefined (Num (JS.ofZ 13)) (Num (JS.ofZ 52))
                (Some "Egypt") (Some "Cairo") (Some "Berlin")).

Definition records : list MuseumObject :=
  [accraToLondon; cairoToBerlin; stays; limaToParis; cairoToBerlin';
   noCoordinates; unlabelled].

(** Scenario 3 of §8: two records of France and one without a label *)
Definition france1 : MuseumObject :=
  record 11 (pt 2 48) (pt 13 52) (Some "France") None None.
Definition france2 : MuseumObject :=
  record 12 (pt 3 49) (pt 13 52) (Some "France") None None.
Definition nowhere : MuseumObject :=
  record 13 (pt 1 1) (pt 13 52) None None None.

(** Three records of one country whose first two average to (0, 0) *)
Definition east1 : MuseumObject :=
  record 21 (pt 1 1) (pt 13 52) (Some "Gabon") None None.
Definition west1 : MuseumObject :=
  record 22 (pt (-1) (-1)) (pt 13 52) (Some "Gabon") None None.
Definition east4 : MuseumObject :=
  record 23 (pt 4 4) (pt 13 52) (Some "Gabon") None None.

(** Records on the equator and on the prime meridian *)
Definition onEquator : MuseumObject :=
  record 31 (pt 9 0) (pt 13 52) (Some "Gabon") None None.
Definition onMeridian : MuseumObject :=
  record 32 (pt 0 51) (pt 13 52) (Some "Gabon") None None.

Definition bounds : Bounds :=
  mkBounds (JS.ofZ 60) (JS.ofZ 0) (JS.ofZ 40) (JS.ofZ 0).

Definition nanBounds : Bounds :=
  mkBounds (JS.ofZ 60) JS.NaN (JS.ofZ 40) (JS.ofZ 0).

End Sample.

(** ** The rest of the module *)

(** *** createCountryArcs *)

Definition createCountryArcs (countryAggregations : list CountryAggregation.t)
  : list ClusteredArc.t := [].

(** *** filterArcsByBounds *)

Definition sub (x y : JS.number) : JS.number := SFsub JS.prec JS.emax x y.

(** [bounds] moved outwards by [padding] on its four sides *)
Definition paddedBounds (bounds : Bounds) (padding : JS.number) : Bounds :=
  mkBounds (JS.add (north bounds) padding) (sub (south bounds) padding)
           (JS.add (east bounds) padding) (sub (west bounds) padding).

(** The test made on [[lng, lat] = arc.sourcePosition] and on the target *)
Definition pointInBounds (bounds : Bounds) (position : value * value) : bool :=
  let lng := toNumber (fst position) in
  let lat := toNumber (snd position) in
  JS.ge lat (south bounds) && JS.le lat (north bounds) &&
  JS.ge lng (west bounds) && JS.le lng (east bounds).

Definition arcInBounds (bounds : Bounds) (arc : ClusteredArc.t) : bool :=
  pointInBounds bounds (ClusteredArc.sourcePosition arc) ||
  pointInBounds bounds (ClusteredArc.targetPosition arc).

(** [bounds] is absent when the caller passes a falsy value; the default
    of [padding] is 1. *)
Definition filterArcsByBounds (arcs : list ClusteredArc.t)
  (bounds : option Bounds) (padding : JS.number) : list ClusteredArc.t :=
  match bounds with
  | None => arcs
  | Some b =>
      if Nat.eqb (List.length arcs) 0 then arcs
      else filter (arcInBounds (paddedBounds b padding)) arcs
  end.

(** ** Grouping, for the properties of the clusterers *)

(** The keys of [objs] in the order in which they are first seen; [keyOf]
    is [None] on the records a clusterer skips. *)
Definition keysSeen (keyOf : MuseumObject -> option string)
  (objs : list MuseumObject) : list string :=
  fold_left (fun seen o => match keyOf o with
                           | Some k => setAdd k seen
                           | None => seen
                           end) objs [].

Definition hasKey (keyOf : MuseumObject -> option string) (k : string)
  (obj : MuseumObject) : bool :=
  match keyOf obj with
  | Some k' => String.eqb k k'
  | None => false
  end.

(** The arc of key [k] with the given members: it has the positions of
    the first one. *)
Definition arcOf (lvl : Level) (k : string) (members : list MuseumObject)
  : ClusteredArc.t :=
  ClusteredArc.mk k
    match members with o :: _ => sourcePos o | [] => (Undefined, Undefined) end
    match members with o :: _ => targetPos o | [] => (Undefined, Undefined) end
    (Z.of_nat (List.length members)) members (Some lvl).

(** The key [clusterArcs] files a record under *)
Definition objectKey (largeToString : positive -> Z -> string)
  (obj : MuseumObject) : option string :=
  if noMovement obj then None else Some (arcKey largeToString obj).

(** The key [countUniqueArcs] counts a record under *)
Definition roundedKey (largeToString : positive -> Z -> string)
  (obj : MuseumObject) : option string :=
  if roundedNoMovement largeToString obj then None
  else Some (arcKey largeToString obj).

(** The key [clusterArcsByCity] files a record under *)
Definition cityPairKey (obj : MuseumObject) : option string :=
  let sourceCity := orUnknown (Attributes.city_en (attributes obj)) in
  let targetCity := orUnknown (Attributes.institution_city_en (attributes obj)) in
  if String.eqb sourceCity "Unknown" || String.eqb targetCity "Unknown"
     || String.eqb sourceCity targetCity
  then None
  else Some (cityKey sourceCity targetCity).

(** A record [clusterArcs] turns into an arc or adds to one *)
Definition clustered (obj : MuseumObject) : bool :=
  validCoordinates obj && negb (noMovement obj).

(** [outer] contains [inner], by the comparisons of the language *)
Definition containsBounds (outer inner : Bounds) : bool :=
  JS.le (north inner) (north outer) && JS.le (south outer) (south inner) &&
  JS.le (east inner) (east outer) && JS.le (west outer) (west inner).

(** [ch] does not occur in [s]. *)
Fixpoint noChar (ch : ascii) (s : string) : bool :=
  match s with
  | EmptyString => true
  | String c s' => negb (Ascii.eqb c ch) && noChar ch s'
  end.

(** [toFixed] prints the number itself, without falling back on
    Number::toString for a finite value of magnitude [10^21] or more. *)
Definition fixedNotation (x : JS.number) : bool :=
  match x with
  | S754_finite _ m e => negb (JS.atLeast1e21 m e)
  | _ => true
  end.

Definition fixedCoordinates (obj : MuseumObject) : bool :=
  fixedNotation (toNumber (fst (sourcePos obj))) &&
  fixedNotation (toNumber (snd (sourcePos obj))) &&
  fixedNotation (toNumber (fst (targetPos obj))) &&
  fixedNotation (toNumber (snd (targetPos obj))).

(** The four coordinates as [clusterArcs] rounds them *)
Definition roundedCoordinates (largeToString : positive -> Z -> string)
  (obj : MuseumObject) : (string * string) * (string * string) :=
  ((toFixed2 largeToString (fst (sourcePos obj)),
    toFixed2 largeToString (snd (sourcePos obj))),
   (toFixed2 largeToString (fst (targetPos obj)),
    toFixed2 largeToString (snd (targetPos obj)))).

(** A printed number: digits and a point (or a name), after an optional
    minus sign; no comma, and no minus sign further in. *)
Definition signedPlain (s : string) : Prop :=
  exists body,
    noChar "," body = true /\ noChar "-" body = true /\
    body <> EmptyString /\ (s = body \/ s = String "-" body).

(** [sum(a.count for a in aggregates)] *)
Definition sumCountryCounts (aggregates : list CountryAggregation.t) : Z :=
  fold_right (fun a s => CountryAggregation.count a + s) 0 aggregates.

Definition labelled (obj : MuseumObject) : bool :=
  match countryOf obj with Some _ => true | None => false end.

(** ** What the selector returns *)




(** Records in any number, each with a key and a pair of cities of its
    own: the [i]-th one has its origin at (i / 100, 1). *)
Module Crowd.



End Crowd.

(** ** Facts about maps *)

Section MapFacts.

Context {V : Type}.
Implicit Types (m : Map V) (k : string).

Lemma update_Forall (P : V -> Prop) k (f : V -> V) m :
  (forall v, P v -> P (f v)) ->
  Forall P (values m) -> Forall P (values (update k f m)).
Proof.
  intros Hf. unfold values.
  induction m as [|[k' v] m IH]; simpl; intros H; [constructor|].
  inversion H as [|? ? Hv Hm]; subst.
  destruct (String.eqb k k'); simpl; constructor; auto.
Qed.

Lemma set_absent k v m : has k m = false -> set k v m = m ++ [(k, v)].
Proof. unfold set. intros ->. reflexivity. Qed.

Lemma values_app m1 m2 : values (m1 ++ m2) = values m1 ++ values m2.
Proof. unfold values. apply map_app. Qed.

End MapFacts.

(** ** Facts about [sort] and [slice] *)

Section SortFacts.

Context {A : Type}.
Variable compare : A -> A -> Z.

Lemma sortInsert_perm x l : Permutation (sortInsert compare x l) (x :: l).
Proof.
  induction l as [|y l IH]; simpl; [reflexivity|].
  destruct (0 <? compare x y); [|reflexivity].
  rewrite IH. apply perm_swap.
Qed.

Lemma sort_perm l : Permutation (sort compare l) l.
Proof.
  induction l as [|x l IH]; simpl; [constructor|].
  rewrite sortInsert_perm. now constructor.
Qed.

Lemma sort_length l : List.length (sort compare l) = List.length l.
Proof. apply Permutation_length, sort_perm. Qed.

Lemma slice0_incl (l : list A) e x : In x (slice0 l e) -> In x l.
Proof.
  unfold slice0. intros H.
  rewrite <- (firstn_skipn (Z.to_nat
    (if e <? 0 then Z.max (Z.of_nat (List.length l) + e) 0
     else Z.min e (Z.of_nat (List.length l)))) l).
  apply in_or_app. now left.
Qed.

End SortFacts.

(** ** Facts about the clusterers *)

Section ClusterFacts.

Variable largeToString : positive -> Z -> string.

Lemma capArcs_nil maxArcs : capArcs [] maxArcs = [].
Proof.
  unfold capArcs, slice0. simpl.
  destruct (0 >? maxArcs); [|reflexivity].
  now rewrite firstn_nil.
Qed.

Lemma length_zero_nil {A} (l : list A) : Nat.eqb (List.length l) 0 = true -> l = [].
Proof. destruct l; simpl; [reflexivity|discriminate]. Qed.

(** The early return on an empty list of valid objects agrees with the
    general path. *)
Lemma clusterArcs_cap objs maxArcs :
  clusterArcs largeToString objs maxArcs
  = capArcs (objectClusters largeToString objs) maxArcs.
Proof.
  unfold clusterArcs, objectClusters.
  destruct (Nat.eqb (List.length (filter validCoordinates objs)) 0) eqn:E;
    [|reflexivity].
  rewrite (length_zero_nil _ E). simpl. now rewrite capArcs_nil.
Qed.

Lemma clusterArcsByCity_cap objs maxArcs :
  clusterArcsByCity objs maxArcs = capArcs (cityClusters objs) maxArcs.
Proof.
  unfold clusterArcsByCity, cityClusters.
  destruct (Nat.eqb (List.length (filter validCity objs)) 0) eqn:E;
    [|reflexivity].
  rewrite (length_zero_nil _ E). simpl. now rewrite capArcs_nil.
Qed.

Lemma capArcs_incl arcs maxArcs a : In a (capArcs arcs maxArcs) -> In a arcs.
Proof.
  unfold capArcs. destruct (_ >? _); [|trivial].
  intros H. apply slice0_incl in H.
  eapply Permutation_in; [apply sort_perm|exact H].
Qed.

Lemma capArcs_Forall (P : ClusteredArc.t -> Prop) arcs maxArcs :
  Forall P arcs -> Forall P (capArcs arcs maxArcs).
Proof.
  rewrite !Forall_forall. intros H a Ha. eapply H, capArcs_incl, Ha.
Qed.

Lemma capArcs_uncapped arcs maxArcs :
  Z.of_nat (List.length arcs) <= maxArcs -> capArcs arcs maxArcs = arcs.
Proof.
  intros H. unfold capArcs.
  destruct (Z.of_nat (List.length arcs) >? maxArcs) eqn:E; [|reflexivity].
  apply Z.gtb_lt in E. lia.
Qed.

(** *** Every cluster counts its members *)

Lemma addMember_countsMembers obj c : countsMembers c -> countsMembers (addMember obj c).
Proof.
  unfold countsMembers, addMember. simpl. intros [H1 H2].
  rewrite length_app. simpl. lia.
Qed.

Lemma addToCluster_countsMembers key lvl obj m :
  Forall countsMembers (values m) ->
  Forall countsMembers (values (addToCluster key lvl obj m)).
Proof.
  intros H. unfold addToCluster.
  destruct (has key m) eqn:E.
  - apply update_Forall; [apply addMember_countsMembers|exact H].
  - rewrite (set_absent _ _ _ E), values_app. apply Forall_app. split; [exact H|].
    repeat constructor. simpl. lia.
Qed.

Lemma fold_left_invariant {S X} (P : S -> Prop) (f : S -> X -> S) :
  (forall s x, P s -> P (f s x)) ->
  forall l s, P s -> P (fold_left f l s).
Proof. intros Hf l. induction l; simpl; auto. Qed.

Lemma objectClusters_countsMembers objs :
  Forall countsMembers (objectClusters largeToString objs).
Proof.
  unfold objectClusters.
  apply (fold_left_invariant (fun m => Forall countsMembers (values m))).
  - intros m obj H. unfold clusterArcs_step.
    destruct (noMovement obj); [exact H|now apply addToCluster_countsMembers].
  - constructor.
Qed.

Lemma cityClusters_countsMembers objs : Forall countsMembers (cityClusters objs).
Proof.
  unfold cityClusters.
  apply (fold_left_invariant (fun m => Forall countsMembers (values m))).
  - intros m obj H. unfold clusterArcsByCity_step.
    destruct (_ || _); [exact H|now apply addToCluster_countsMembers].
  - constructor.
Qed.

(** *** Every kept object is counted once *)

Lemma sumCounts_app l1 l2 : sumCounts (l1 ++ l2) = sumCounts l1 + sumCounts l2.
Proof. induction l1; simpl; lia. Qed.

Lemma sumCounts_update key obj (m : Map ClusteredArc.t) :
  has key m = true ->
  sumCounts (values (update key (addMember obj) m)) = sumCounts (values m) + 1.
Proof.
  unfold has, values. induction m as [|[k c] m IH]; simpl; [discriminate|].
  destruct (String.eqb key k); simpl; intros H; [lia|].
  rewrite IH by exact H. lia.
Qed.

Lemma sumCounts_addToCluster key lvl obj m :
  sumCounts (values (addToCluster key lvl obj m)) = sumCounts (values m) + 1.
Proof.
  unfold addToCluster. destruct (has key m) eqn:E.
  - now apply sumCounts_update.
  - rewrite (set_absent _ _ _ E), values_app, sumCounts_app. simpl. lia.
Qed.

Lemma sumCounts_fold objs : forall m,
  sumCounts (values (fold_left (clusterArcs_step largeToString) objs m))
  = sumCounts (values m)
    + Z.of_nat (List.length (filter (fun o => negb (noMovement o)) objs)).
Proof.
  induction objs as [|o objs IH]; intros m; simpl; [lia|].
  rewrite IH. unfold clusterArcs_step.
  destruct (noMovement o); simpl; [reflexivity|].
  rewrite sumCounts_addToCluster. lia.
Qed.

Lemma filter_negb_length {A} (p : A -> bool) l :
  Z.of_nat (List.length (filter (fun x => negb (p x)) l))
  = Z.of_nat (List.length l) - Z.of_nat (List.length (filter p l)).
Proof.
  induction l as [|x l IH]; [reflexivity|].
  cbn [filter]. destruct (p x); cbn [negb List.length]; lia.
Qed.

End ClusterFacts.

(** ** The sort is stable: the cap keeps the best-ranked arcs *)

Section TopK.

Implicit Types (arcs : list ClusteredArc.t) (l : list (nat * ClusteredArc.t)).

Lemma indexFrom_cons s a arcs :
  indexFrom s (a :: arcs) = (s, a) :: indexFrom (S s) arcs.
Proof. reflexivity. Qed.

Lemma indexFrom_In s arcs i a :
  In (i, a) (indexFrom s arcs) ->
  (s <= i)%nat /\ nth_error arcs (i - s) = Some a.
Proof.
  revert s. induction arcs as [|x arcs IH]; intros s; [intros []|].
  rewrite indexFrom_cons. intros [E|H].
  - injection E as <- <-. rewrite Nat.sub_diag. now split.
  - apply IH in H as [Hle Hn]. split; [lia|].
    replace (i - s)%nat with (S (i - S s)) by lia. exact Hn.
Qed.

Lemma In_indexFrom s arcs j a :
  nth_error arcs j = Some a -> In ((s + j)%nat, a) (indexFrom s arcs).
Proof.
  revert s j. induction arcs as [|x arcs IH]; intros s [|j]; simpl; try discriminate.
  - intros [= <-]. rewrite Nat.add_0_r. now left.
  - intros H. right. replace (s + S j)%nat with (S s + j)%nat by lia.
    now apply IH.
Qed.

Lemma indexFrom_snd s arcs : map snd (indexFrom s arcs) = arcs.
Proof.
  revert s. induction arcs as [|x arcs IH]; intros s; [reflexivity|].
  rewrite indexFrom_cons. simpl. now rewrite IH.
Qed.

Lemma indexFrom_increasing s arcs :
  StronglySorted (fun p q => (fst p < fst q)%nat) (indexFrom s arcs).
Proof.
  revert s. induction arcs as [|x arcs IH]; intros s; [constructor|].
  rewrite indexFrom_cons. constructor; [apply IH|].
  apply Forall_forall. intros [i a] H. apply indexFrom_In in H. simpl. lia.
Qed.

(** Sorting the arcs, or sorting them with their positions attached *)
Lemma sortInsert_snd p l :
  map snd (sortInsert byCountDescIx p l)
  = sortInsert byCountDesc (snd p) (map snd l).
Proof.
  induction l as [|q l IH]; simpl; [reflexivity|].
  unfold byCountDescIx at 1.
  destruct (0 <? byCountDesc (snd p) (snd q)); simpl; [now rewrite IH|reflexivity].
Qed.

Lemma sort_snd l :
  map snd (sort byCountDescIx l) = sort byCountDesc (map snd l).
Proof.
  induction l as [|p l IH]; simpl; [reflexivity|].
  now rewrite sortInsert_snd, IH.
Qed.

Lemma sortInsert_ranked p l :
  StronglySorted ranksBefore l ->
  Forall (fun q => (fst p < fst q)%nat) l ->
  StronglySorted ranksBefore (sortInsert byCountDescIx p l).
Proof.
  induction 1 as [|q l Hl IH Hq]; intros Hp; simpl.
  - repeat constructor.
  - inversion Hp as [|? ? Hpq Hpl]; subst.
    unfold byCountDescIx at 1. unfold byCountDesc.
    destruct (0 <? ClusteredArc.count (snd q) - ClusteredArc.count (snd p)) eqn:E.
    + apply Z.ltb_lt in E. constructor; [now apply IH|].
      eapply Permutation_Forall; [symmetry; apply sortInsert_perm|].
      constructor; [left; lia|exact Hq].
    + apply Z.ltb_ge in E. constructor; [now constructor|].
      constructor; [unfold ranksBefore; lia|].
      rewrite Forall_forall in Hq, Hpl |- *. intros r Hr.
      specialize (Hq r Hr). specialize (Hpl r Hr).
      unfold ranksBefore in *. lia.
Qed.

Lemma sort_ranked l :
  StronglySorted (fun p q => (fst p < fst q)%nat) l ->
  StronglySorted ranksBefore (sort byCountDescIx l).
Proof.
  induction 1 as [|p l Hl IH Hp]; simpl; [constructor|].
  apply sortInsert_ranked; [exact IH|].
  eapply Permutation_Forall; [symmetry; apply sort_perm|exact Hp].
Qed.

Lemma StronglySorted_app_inv {A} (R : A -> A -> Prop) (l1 l2 : list A) :
  StronglySorted R (l1 ++ l2) ->
  StronglySorted R l1 /\ forall x y, In x l1 -> In y l2 -> R x y.
Proof.
  induction l1 as [|a l1 IH]; simpl; intros H.
  - split; [constructor|intros ? ? []].
  - inversion H as [|? ? Hs Ha]; subst. destruct (IH Hs) as [H1 H2].
    rewrite Forall_app in Ha. destruct Ha as [Ha1 Ha2].
    split; [now constructor|].
    intros x y [<-|Hx] Hy; [|now apply H2].
    rewrite Forall_forall in Ha2. now apply Ha2.
Qed.

Lemma StronglySorted_map_in {A B} (R : A -> A -> Prop) (R' : B -> B -> Prop)
  (f : A -> B) (l : list A) :
  (forall x y, In x l -> In y l -> R x y -> R' (f x) (f y)) ->
  StronglySorted R l -> StronglySorted R' (map f l).
Proof.
  intros HR H. induction H as [|a l Hl IH Ha]; simpl; [constructor|].
  constructor.
  - apply IH. intros x y Hx Hy. apply HR; now right.
  - rewrite Forall_forall in Ha |- *. intros b Hb.
    apply in_map_iff in Hb as [x [<- Hx]].
    apply HR; [now left|now right|now apply Ha].
Qed.

Lemma ranksBefore_outranks arcs p q :
  In p (indexFrom 0 arcs) -> In q (indexFrom 0 arcs) ->
  ranksBefore p q -> outranks arcs (fst p) (fst q).
Proof.
  destruct p as [i a], q as [j b]. intros Hp Hq.
  apply indexFrom_In in Hp as [_ Hp]. apply indexFrom_In in Hq as [_ Hq].
  rewrite Nat.sub_0_r in Hp, Hq.
  unfold ranksBefore, outranks, countAt. simpl. now rewrite Hp, Hq.
Qed.

(** The first [k] arcs of the sorted list are the [k] best-ranked ones. *)
Lemma firstn_sort_topK arcs k :
  (k <= List.length arcs)%nat ->
  topK arcs (firstn k (sort byCountDesc arcs)) k.
Proof.
  intros Hk.
  set (S := sort byCountDescIx (indexFrom 0 arcs)).
  assert (HS : Permutation S (indexFrom 0 arcs)) by apply sort_perm.
  assert (Hin : forall p, In p S -> In p (indexFrom 0 arcs))
    by (intros p; apply Permutation_in, HS).
  assert (Hsorted : StronglySorted ranksBefore (firstn k S ++ skipn k S)).
  { rewrite firstn_skipn. apply sort_ranked, indexFrom_increasing. }
  apply StronglySorted_app_inv in Hsorted as [Hfirst Hcross].
  assert (Hfin : forall p, In p (firstn k S) -> In p (indexFrom 0 arcs)).
  { intros p Hp. apply Hin. rewrite <- (firstn_skipn k S).
    apply in_or_app. now left. }
  exists (map fst (firstn k S)). repeat split.
  - assert (Hsort : sort byCountDesc arcs = map snd S)
      by (unfold S; now rewrite sort_snd, indexFrom_snd).
    rewrite Hsort, firstn_map, !map_map. apply map_ext_in.
    intros [i a] Hp. apply Hfin, indexFrom_In in Hp as [_ Hp].
    simpl. now rewrite Nat.sub_0_r in Hp.
  - rewrite length_map, length_firstn.
    rewrite (Permutation_length HS). unfold indexFrom.
    rewrite length_combine, length_seq. lia.
  - eapply StronglySorted_map_in; [|exact Hfirst].
    intros p q Hp Hq. apply ranksBefore_outranks; now apply Hfin.
  - intros j Hj Hnot. apply Forall_forall. intros i Hi.
    apply in_map_iff in Hi as [p [<- Hp]].
    destruct (nth_error arcs j) as [b|] eqn:Eb;
      [|apply nth_error_None in Eb; lia].
    pose proof (In_indexFrom 0 arcs j b Eb) as Hjb. simpl in Hjb.
    apply (Permutation_in _ (Permutation_sym HS)) in Hjb.
    rewrite <- (firstn_skipn k S) in Hjb. apply in_app_or in Hjb as [Hjb|Hjb].
    + exfalso. apply Hnot. apply in_map_iff. now exists (j, b).
    + apply (ranksBefore_outranks arcs p (j, b)).
      * now apply Hfin.
      * apply Hin. rewrite <- (firstn_skipn k S). apply in_or_app. now right.
      * now apply Hcross.
Qed.

Lemma outranks_asym arcs i j : outranks arcs i j -> outranks arcs j i -> False.
Proof. unfold outranks. lia. Qed.

Lemma StronglySorted_outranks_NoDup arcs (idx : list nat) :
  StronglySorted (outranks arcs) idx -> NoDup idx.
Proof.
  induction 1 as [|i idx Hs IH Hi]; constructor; [|exact IH].
  intros Hin. rewrite Forall_forall in Hi.
  apply (outranks_asym arcs i i); now apply Hi.
Qed.

Lemma incl_or_missing (l1 l2 : list nat) :
  incl l2 l1 \/ exists j, In j l2 /\ ~ In j l1.
Proof.
  induction l2 as [|j l2 IH]; [left; intros ? []|].
  destruct (in_dec Nat.eq_dec j l1) as [Hj|Hj]; [|right; exists j; simpl; auto].
  destruct IH as [IH|[j' [H1 H2]]].
  - left. intros x [<-|Hx]; auto.
  - right. exists j'. simpl. auto.
Qed.

(** Two lists in rank order with the same elements are the same list. *)
Lemma ranked_same_elements arcs (l1 : list nat) : forall l2 : list nat,
  StronglySorted (outranks arcs) l1 -> StronglySorted (outranks arcs) l2 ->
  (forall x, In x l1 <-> In x l2) -> l1 = l2.
Proof.
  induction l1 as [|a l1 IH]; intros [|b l2] H1 H2 Hsame.
  - reflexivity.
  - exfalso. apply (Hsame b). now left.
  - exfalso. apply (Hsame a). now left.
  - inversion H1 as [|? ? Hs1 Ha]; inversion H2 as [|? ? Hs2 Hb]; subst.
    rewrite Forall_forall in Ha, Hb.
    assert (Hab : a = b).
    { destruct (proj1 (Hsame a) (or_introl eq_refl)) as [E|Hin]; [now symmetry|].
      destruct (proj2 (Hsame b) (or_introl eq_refl)) as [E|Hin']; [exact E|].
      exfalso. apply (outranks_asym arcs a b); auto. }
    subst b. f_equal. apply IH; [exact Hs1|exact Hs2|].
    intros x. split; intros Hx.
    + destruct (proj1 (Hsame x) (or_intror Hx)) as [<-|H]; [|exact H].
      exfalso. apply (outranks_asym arcs a a); auto.
    + destruct (proj2 (Hsame x) (or_intror Hx)) as [<-|H]; [|exact H].
      exfalso. apply (outranks_asym arcs a a); auto.
Qed.

Lemma map_Some_inj {A} (l1 l2 : list A) : map Some l1 = map Some l2 -> l1 = l2.
Proof.
  revert l2. induction l1 as [|x l1 IH]; intros [|y l2]; simpl; try discriminate.
  - reflexivity.
  - intros [= -> H]. f_equal. now apply IH.
Qed.

(** [topK] determines the kept arcs. *)
Lemma topK_unique arcs kept1 kept2 k :
  topK arcs kept1 k -> topK arcs kept2 k -> kept1 = kept2.
Proof.
  intros (idx1 & Hm1 & Hl1 & Hs1 & Hd1) (idx2 & Hm2 & Hl2 & Hs2 & Hd2).
  assert (Hrange : forall kept (idx : list nat),
            map Some kept = map (nth_error arcs) idx ->
            forall i, In i idx -> (i < List.length arcs)%nat).
  { intros kept idx Hm i Hi. apply nth_error_Some.
    apply (in_map (nth_error arcs)) in Hi. rewrite <- Hm in Hi.
    apply in_map_iff in Hi as [x [Hx _]]. congruence. }
  assert (Hincl : forall (idxa idxb : list nat),
            List.length idxa = List.length idxb ->
            NoDup idxb ->
            (forall i, In i idxa -> (i < List.length arcs)%nat) ->
            (forall j, (j < List.length arcs)%nat -> ~ In j idxa ->
                       Forall (fun i => outranks arcs i j) idxa) ->
            (forall i, In i idxb -> (i < List.length arcs)%nat) ->
            (forall j, (j < List.length arcs)%nat -> ~ In j idxb ->
                       Forall (fun i => outranks arcs i j) idxb) ->
            incl idxa idxb).
  { intros idxa idxb Hlen Hnd Hra Hda Hrb Hdb i Hi.
    destruct (in_dec Nat.eq_dec i idxb) as [Hin|Hout]; [exact Hin|exfalso].
    destruct (incl_or_missing idxa idxb) as [Hsub|[j [Hj Hja]]].
    - assert (Hback : incl idxa idxb)
        by (apply (@NoDup_length_incl nat idxb idxa Hnd); [lia|exact Hsub]).
      apply Hout, Hback, Hi.
    - pose proof (Hda j (Hrb j Hj) Hja) as Fa.
      pose proof (Hdb i (Hra i Hi) Hout) as Fb.
      rewrite Forall_forall in Fa, Fb.
      apply (outranks_asym arcs i j); auto. }
  assert (Hidx : idx1 = idx2).
  { apply (ranked_same_elements arcs); [exact Hs1|exact Hs2|].
    pose proof (StronglySorted_outranks_NoDup _ _ Hs1) as N1.
    pose proof (StronglySorted_outranks_NoDup _ _ Hs2) as N2.
    intros x. split; apply Hincl; eauto using eq_trans, eq_sym; congruence. }
  subst idx2. apply map_Some_inj. congruence.
Qed.

Lemma capArcs_length arcs maxArcs :
  0 < maxArcs -> Z.of_nat (List.length (capArcs arcs maxArcs)) <= maxArcs.
Proof.
  intros Hpos. unfold capArcs.
  destruct (Z.of_nat (List.length arcs) >? maxArcs) eqn:E.
  - unfold slice0. rewrite sort_length.
    destruct (maxArcs <? 0) eqn:En; [apply Z.ltb_lt in En; lia|].
    rewrite length_firstn, sort_length. lia.
  - rewrite Z.gtb_ltb in E. apply Z.ltb_ge in E. exact E.
Qed.

Lemma capArcs_topK arcs maxArcs :
  0 < maxArcs -> maxArcs < Z.of_nat (List.length arcs) ->
  topK arcs (capArcs arcs maxArcs) (Z.to_nat maxArcs).
Proof.
  intros Hpos Hlt. unfold capArcs.
  destruct (Z.of_nat (List.length arcs) >? maxArcs) eqn:E;
    [|rewrite Z.gtb_ltb in E; apply Z.ltb_ge in E; lia].
  unfold slice0. rewrite sort_length.
  destruct (maxArcs <? 0) eqn:En; [apply Z.ltb_lt in En; lia|].
  rewrite Z.min_l by lia. apply firstn_sort_topK. lia.
Qed.

End TopK.

(** ** Facts about comparisons of numbers *)

Section NumberFacts.



Lemma le_NaN_r x : JS.le x JS.NaN = false.
Proof. now destruct x. Qed.

Lemma le_NaN_l x : JS.le JS.NaN x = false.
Proof. now destruct x. Qed.

Lemma ofZ_4 : JS.ofZ 4 = S754_finite false 4503599627370496 (-50).
Proof. reflexivity. Qed.

Lemma ofZ_8 : JS.ofZ 8 = S754_finite false 4503599627370496 (-49).
Proof. reflexivity. Qed.



(** At most a positive number, hence at most every positive number of a
    larger exponent. *)
Lemma le_finite_le (m1 m2 : positive) (e1 e2 : Z) x :
  e2 < e1 ->
  JS.le x (S754_finite false m2 e2) = true ->
  JS.le x (S754_finite false m1 e1) = true.
Proof.
  intros He. unfold JS.le, SFleb.
  destruct x as [s|s| |s m e]; try destruct s; cbn [SFcompare]; try congruence.
  destruct (Z.compare_spec e e2) as [->|H|H]; try congruence.
  - intros _. destruct (Z.compare_spec e2 e1); try reflexivity; lia.
  - intros _. destruct (Z.compare_spec e e1); try reflexivity; lia.
Qed.

Lemma le_4_le_8 zoom :
  JS.le zoom (JS.ofZ 4) = true -> JS.le zoom (JS.ofZ 8) = true.
Proof. rewrite ofZ_4, ofZ_8. apply le_finite_le. lia. Qed.

Lemma isNaN_NaN x : JS.isNaN x = true -> x = JS.NaN.
Proof. destruct x; simpl; intros H; (reflexivity || discriminate H). Qed.

End NumberFacts.

(** ** The aggregator in closed form *)

Section AggregateFacts.

Implicit Types (objs : list MuseumObject) (c : string).

Lemma has_map {V} (g : string -> V) c (D : list string) :
  has c (map (fun k => (k, g k)) D) = existsb (String.eqb c) D.
Proof.
  unfold has. induction D as [|k D IH]; simpl; [reflexivity|].
  destruct (String.eqb c k); [reflexivity|exact IH].
Qed.

Lemma update_map {V} (g h : string -> V) (f : V -> V) c (D : list string) :
  NoDup D ->
  h c = f (g c) ->
  (forall k, In k D -> k <> c -> g k = h k) ->
  update c f (map (fun k => (k, g k)) D) = map (fun k => (k, h k)) D.
Proof.
  induction 1 as [|k D Hk HD IH]; simpl; [reflexivity|].
  intros Hc Hg. destruct (String.eqb c k) eqn:E.
  - apply String.eqb_eq in E. subst k. rewrite <- Hc. f_equal.
    apply map_ext_in. intros k Hin. rewrite Hg; [reflexivity|now right|].
    intros ->. contradiction.
  - apply String.eqb_neq in E. rewrite (Hg k); [|now left|congruence].
    f_equal. apply IH; auto.
Qed.

Lemma update_app_absent {V} (f : V -> V) c v (m : Map V) :
  has c m = false -> update c f (m ++ [(c, v)]) = m ++ [(c, f v)].
Proof.
  unfold has. induction m as [|[k w] m IH]; simpl.
  - now rewrite String.eqb_refl.
  - destruct (String.eqb c k); [discriminate|]. intros H. now rewrite IH.
Qed.

Lemma existsb_eqb_In c (D : list string) :
  existsb (String.eqb c) D = true <-> In c D.
Proof.
  rewrite existsb_exists. split.
  - intros [k [Hk E]]. apply String.eqb_eq in E. now subst.
  - intros H. exists c. split; [exact H|apply String.eqb_refl].
Qed.

Lemma countries_snoc objs obj :
  countries (objs ++ [obj]) = countries_step (countries objs) obj.
Proof. unfold countries. now rewrite fold_left_app. Qed.

Lemma countries_NoDup objs : NoDup (countries objs).
Proof.
  induction objs as [|obj objs IH] using rev_ind; [constructor|].
  rewrite countries_snoc. unfold countries_step.
  destruct (countryOf obj) as [c|]; [|exact IH].
  destruct (existsb (String.eqb c) (countries objs)) eqn:E; [exact IH|].
  apply NoDup_app; repeat split; [exact IH|repeat constructor; intros []|].
  intros k Hk [<-|[]]. apply existsb_eqb_In in Hk. congruence.
Qed.

Lemma countries_In objs c :
  In c (countries objs) <-> exists obj, In obj objs /\ countryOf obj = Some c.
Proof.
  induction objs as [|obj objs IH] using rev_ind.
  - split; [intros []|intros [? [[] _]]].
  - rewrite countries_snoc. unfold countries_step.
    assert (Hsnoc : forall o, In o (objs ++ [obj]) <-> In o objs \/ o = obj).
    { intros o. rewrite in_app_iff. simpl. intuition. }
    split.
    + destruct (countryOf obj) as [c'|] eqn:Ec.
      * destruct (existsb (String.eqb c') (countries objs)) eqn:E; intros H.
        -- apply IH in H as [o [Ho Hc]]. exists o. rewrite Hsnoc. auto.
        -- apply in_app_iff in H as [H|[<-|[]]].
           ++ apply IH in H as [o [Ho Hc]]. exists o. rewrite Hsnoc. auto.
           ++ exists obj. rewrite Hsnoc. auto.
      * intros H. apply IH in H as [o [Ho Hc]]. exists o. rewrite Hsnoc. auto.
    + intros [o [Ho Hc]]. apply Hsnoc in Ho as [Ho| ->].
      * assert (Hin : In c (countries objs)) by (apply IH; eauto).
        destruct (countryOf obj) as [c'|]; [|exact Hin].
        destruct (existsb _ _); [exact Hin|apply in_app_iff; now left].
      * rewrite Hc. destruct (existsb _ _) eqn:E.
        -- now apply existsb_eqb_In.
        -- apply in_app_iff. right. now left.
Qed.

Lemma filter_snoc {A} (p : A -> bool) (l : list A) x :
  filter p (l ++ [x]) = if p x then filter p l ++ [x] else filter p l.
Proof.
  rewrite filter_app. simpl. destruct (p x); [reflexivity|apply app_nil_r].
Qed.

Lemma runningCentroid_snoc members obj :
  runningCentroid (members ++ [obj])
  = centroid_step (runningCentroid members) obj.
Proof. unfold runningCentroid. now rewrite fold_left_app. Qed.

Lemma addToCountry_aggregateOf c members obj :
  addToCountry obj (aggregateOf c members) = aggregateOf c (members ++ [obj]).
Proof.
  unfold aggregateOf at 2. rewrite runningCentroid_snoc.
  unfold addToCountry, centroid_step, validOrigin, unseeded, originPoint, average.
  replace (Z.of_nat (List.length (members ++ [obj])))
    with (Z.of_nat (List.length members) + 1)
    by (rewrite length_app; simpl; lia).
  cbn [aggregateOf CountryAggregation.count CountryAggregation.latitude
       CountryAggregation.longitude CountryAggregation.objects
       CountryAggregation.country].
  destruct (truthy _ && truthy _); [|now destruct (runningCentroid members)].
  destruct (JS.strictEq _ _ && JS.strictEq _ _); reflexivity.
Qed.

Lemma inCountry_iff c obj : inCountry c obj = true <-> countryOf obj = Some c.
Proof.
  unfold inCountry. destruct (countryOf obj) as [c'|]; [|split; discriminate].
  rewrite String.eqb_eq. split; congruence.
Qed.

Lemma inCountry_false c obj : countryOf obj <> Some c -> inCountry c obj = false.
Proof.
  intros H. destruct (inCountry c obj) eqn:E; [|reflexivity].
  now apply inCountry_iff in E.
Qed.

Lemma filter_inCountry_unseen c objs :
  ~ In c (countries objs) -> filter (inCountry c) objs = [].
Proof.
  intros Hc. destruct (filter (inCountry c) objs) as [|o l] eqn:Ef; [reflexivity|].
  assert (Ho : In o (filter (inCountry c) objs)) by (rewrite Ef; now left).
  apply filter_In in Ho as [Ho Hin]. apply inCountry_iff in Hin.
  exfalso. apply Hc, countries_In. eauto.
Qed.

(** The map after [done_] has been processed *)
Lemma aggregateByCountry_step_closed done_ obj :
  aggregateByCountry_step
    (map (fun c => (c, aggregateOf c (filter (inCountry c) done_)))
         (countries done_)) obj
  = map (fun c => (c, aggregateOf c (filter (inCountry c) (done_ ++ [obj]))))
        (countries (done_ ++ [obj])).
Proof.
  unfold aggregateByCountry_step. rewrite countries_snoc.
  unfold countries_step.
  assert (Hc : countryOf obj =
    if negb (nonEmpty (orUnknown (Attributes.country_en (attributes obj))))
       || String.eqb (orUnknown (Attributes.country_en (attributes obj))) "Unknown"
    then None
    else Some (orUnknown (Attributes.country_en (attributes obj))))
    by reflexivity.
  destruct (negb _ || _).
  - rewrite Hc. apply map_ext. intros c. rewrite filter_snoc.
    rewrite inCountry_false; [reflexivity|congruence].
  - rewrite Hc. set (c0 := orUnknown _) in *.
    rewrite has_map.
    destruct (existsb (String.eqb c0) (countries done_)) eqn:E.
    + apply update_map; [apply countries_NoDup| |].
      * rewrite filter_snoc, (proj2 (inCountry_iff c0 obj) Hc).
        symmetry. apply addToCountry_aggregateOf.
      * intros k _ Hk. rewrite filter_snoc.
        rewrite inCountry_false; [reflexivity|congruence].
    + assert (Hnew : ~ In c0 (countries done_))
        by (rewrite <- existsb_eqb_In; congruence).
      rewrite set_absent by (now rewrite has_map).
      rewrite update_app_absent by (now rewrite has_map).
      rewrite map_app. simpl. f_equal.
      * apply map_ext_in. intros k Hk. rewrite filter_snoc.
        rewrite inCountry_false; [reflexivity|]. congruence.
      * rewrite filter_snoc, (proj2 (inCountry_iff c0 obj) Hc).
        rewrite (filter_inCountry_unseen _ _ Hnew). simpl. f_equal. f_equal.
        apply (addToCountry_aggregateOf c0 [] obj).
Qed.

Lemma aggregateByCountry_fold rest : forall done_,
  fold_left aggregateByCountry_step rest
    (map (fun c => (c, aggregateOf c (filter (inCountry c) done_)))
         (countries done_))
  = map (fun c => (c, aggregateOf c (filter (inCountry c) (done_ ++ rest))))
        (countries (done_ ++ rest)).
Proof.
  induction rest as [|obj rest IH]; intros done_; simpl.
  - now rewrite app_nil_r.
  - rewrite aggregateByCountry_step_closed, IH, <- app_assoc. reflexivity.
Qed.

(** One aggregate per label, in first-seen order, each built from the
    records of its label in input order. *)
Lemma aggregateByCountry_closed objs :
  aggregateByCountry objs
  = map (fun c => aggregateOf c (filter (inCountry c) objs)) (countries objs).
Proof.
  unfold aggregateByCountry.
  destruct (Nat.eqb (List.length objs) 0) eqn:E.
  - now rewrite (length_zero_nil _ E).
  - pose proof (aggregateByCountry_fold objs []) as H. simpl in H.
    rewrite H. unfold values. rewrite map_map. reflexivity.
Qed.

End AggregateFacts.

(** ** Properties of the clusterers *)

Section ClustererProperties.

Variable largeToString : positive -> Z -> string.

(** A cap the arc list does not exceed leaves it as it is. *)
Lemma clusterArcs_uncapped objs maxArcs :
  Z.of_nat (List.length (objectClusters largeToString objs)) <= maxArcs ->
  clusterArcs largeToString objs maxArcs = objectClusters largeToString objs.
Proof. intros H. rewrite clusterArcs_cap. now apply capArcs_uncapped. Qed.

(** What the no-movement test of [clusterArcs] does guarantee: a record
    whose coordinates are the same numbers is in no arc. *)
Lemma noMovement_excluded objs maxArcs obj a :
  noMovement obj = true ->
  In a (clusterArcs largeToString objs maxArcs) ->
  ~ In obj (ClusteredArc.objects a).
Proof.
  intros Hobj Ha Hin. rewrite clusterArcs_cap in Ha. apply capArcs_incl in Ha.
  assert (H : Forall (fun a => Forall (fun o => noMovement o = false)
                                      (ClusteredArc.objects a))
                     (objectClusters largeToString objs)).
  { unfold objectClusters.
    apply (fold_left_invariant
             (fun m => Forall (fun a => Forall (fun o => noMovement o = false)
                                               (ClusteredArc.objects a))
                              (values m))); [|constructor].
    intros m o Hm. unfold clusterArcs_step.
    destruct (noMovement o) eqn:E; [exact Hm|]. unfold addToCluster.
    destruct (has _ m) eqn:Eh.
    - apply update_Forall; [|exact Hm]. intros c Hc. simpl.
      apply Forall_app. split; [exact Hc|now repeat constructor].
    - rewrite (set_absent _ _ _ Eh), values_app. apply Forall_app.
      split; [exact Hm|]. now repeat constructor. }
  rewrite Forall_forall in H. specialize (H a Ha).
  rewrite Forall_forall in H. specialize (H obj Hin). congruence.
Qed.

(** C2, as the code has it.  A cap [maxArcs <= 0] is not "no cap": the
    arc list, unless it is empty, always exceeds it and is sorted and
    sliced.  With [maxArcs = 0] the result is empty; with [maxArcs < 0] the
    slice drops the last [- maxArcs] arcs of the sorted list; in both
    cases the result differs from the uncapped list as soon as there is
    an arc. *)
Theorem clusterArcs_nonpositive_cap objs maxArcs :
  maxArcs <= 0 ->
  (maxArcs = 0 -> clusterArcs largeToString objs maxArcs = []) /\
  (maxArcs < 0 ->
   clusterArcs largeToString objs maxArcs
   = firstn
       (Z.to_nat
          (Z.of_nat (List.length (objectClusters largeToString objs)) + maxArcs))
       (sort byCountDesc (objectClusters largeToString objs))) /\
  (objectClusters largeToString objs <> [] ->
   clusterArcs largeToString objs maxArcs <> objectClusters largeToString objs).
Proof.
  intros Hle. rewrite clusterArcs_cap.
  set (arcs := objectClusters largeToString objs).
  assert (Hneg : maxArcs < 0 ->
    capArcs arcs maxArcs
    = firstn (Z.to_nat (Z.of_nat (List.length arcs) + maxArcs))
             (sort byCountDesc arcs)).
  { intros Hlt. unfold capArcs, slice0. rewrite sort_length.
    destruct (Z.of_nat (List.length arcs) >? maxArcs) eqn:E;
      [|rewrite Z.gtb_ltb in E; apply Z.ltb_ge in E; lia].
    destruct (maxArcs <? 0) eqn:En; [|apply Z.ltb_ge in En; lia].
    f_equal. lia. }
  assert (Hzero : maxArcs = 0 -> capArcs arcs maxArcs = []).
  { intros ->. unfold capArcs, slice0.
    destruct (Z.of_nat (List.length arcs) >? 0) eqn:E.
    { change (0 <? 0) with false. cbv beta iota zeta.
      rewrite Z.min_l by lia. reflexivity. }
    rewrite Z.gtb_ltb in E. apply Z.ltb_ge in E.
    destruct arcs; [reflexivity|simpl in E; lia]. }
  repeat split; [exact Hzero|exact Hneg|].
  intros Hne Heq. apply (f_equal (@List.length _)) in Heq.
  destruct (Z.eq_dec maxArcs 0) as [E0|E0].
  - rewrite (Hzero E0) in Heq. destruct arcs; [congruence|discriminate].
  - rewrite Hneg in Heq by lia.
    rewrite length_firstn, sort_length in Heq.
    destruct arcs; [congruence|]. simpl List.length in Heq. lia.
Qed.

(** What the clusterer does conserve under a cap that does not bite: the
    counts of the arcs add up to the number of records that pass its
    coordinate filter minus the number of those among them that its own
    test, on the unrounded numbers, finds not to move. *)
Lemma clusterArcs_raw_count_conservation objs maxArcs :
  Z.of_nat (List.length (objectClusters largeToString objs)) <= maxArcs ->
  sumCounts (clusterArcs largeToString objs maxArcs)
  = Z.of_nat (List.length (filter validCoordinates objs))
    - Z.of_nat (List.length (filter noMovement (filter validCoordinates objs))).
Proof.
  intros H. rewrite (clusterArcs_uncapped _ _ H).
  unfold objectClusters. rewrite sumCounts_fold. simpl.
  apply filter_negb_length.
Qed.

(** C6.  Under a cap [maxArcs > 0] either clusterer returns at most
    [maxArcs] arcs, and when the arc list exceeds the cap it returns the
    [maxArcs] arcs of highest count, highest first, an arc encountered
    earlier winning every tie; no other list is such a selection. *)
Theorem capped_clusters_topK objs maxArcs :
  0 < maxArcs ->
  (Z.of_nat (List.length (clusterArcs largeToString objs maxArcs)) <= maxArcs /\
   (maxArcs < Z.of_nat (List.length (objectClusters largeToString objs)) ->
    topK (objectClusters largeToString objs)
         (clusterArcs largeToString objs maxArcs) (Z.to_nat maxArcs) /\
    forall kept,
      topK (objectClusters largeToString objs) kept (Z.to_nat maxArcs) ->
      kept = clusterArcs largeToString objs maxArcs))
  /\
  (Z.of_nat (List.length (clusterArcsByCity objs maxArcs)) <= maxArcs /\
   (maxArcs < Z.of_nat (List.length (cityClusters objs)) ->
    topK (cityClusters objs) (clusterArcsByCity objs maxArcs) (Z.to_nat maxArcs) /\
    forall kept,
      topK (cityClusters objs) kept (Z.to_nat maxArcs) ->
      kept = clusterArcsByCity objs maxArcs)).
Proof.
  intros Hpos. rewrite clusterArcs_cap, clusterArcsByCity_cap.
  assert (H : forall arcs,
            Z.of_nat (List.length (capArcs arcs maxArcs)) <= maxArcs /\
            (maxArcs < Z.of_nat (List.length arcs) ->
             topK arcs (capArcs arcs maxArcs) (Z.to_nat maxArcs) /\
             forall kept, topK arcs kept (Z.to_nat maxArcs) ->
                          kept = capArcs arcs maxArcs)).
  { intros arcs. split; [now apply capArcs_length|].
    intros Hlt. pose proof (capArcs_topK arcs maxArcs Hpos Hlt) as Htop.
    split; [exact Htop|]. intros kept Hk. exact (topK_unique _ _ _ _ Hk Htop). }
  split; apply H.
Qed.

(** C9.  Whatever the cap, every arc of either clusterer has a count of at
    least one, equal to the number of its members. *)
Theorem clusters_count_members objs maxArcs :
  Forall countsMembers (clusterArcs largeToString objs maxArcs) /\
  Forall countsMembers (clusterArcsByCity objs maxArcs).
Proof.
  rewrite clusterArcs_cap, clusterArcsByCity_cap. split; apply capArcs_Forall.
  - apply objectClusters_countsMembers.
  - apply cityClusters_countsMembers.
Qed.

End ClustererProperties.

(** ** Properties of the zoom selector *)

Section SelectorProperties.

Variable largeToString : positive -> Z -> string.

(** The clusterer only looks at the records with valid coordinates. *)
Lemma clusterArcs_valid objs objs' maxArcs :
  filter validCoordinates objs = filter validCoordinates objs' ->
  clusterArcs largeToString objs maxArcs = clusterArcs largeToString objs' maxArcs.
Proof. unfold clusterArcs. now intros ->. Qed.

Lemma filter_valid_ext (p q : MuseumObject -> bool) objs :
  (forall o, validCoordinates o = true -> p o = q o) ->
  filter validCoordinates (filter p objs) = filter validCoordinates (filter q objs).
Proof.
  intros H. induction objs as [|o objs IH]; simpl; [reflexivity|].
  destruct (validCoordinates o) eqn:Ev.
  - rewrite <- (H o Ev). destruct (p o); simpl; rewrite ?Ev, IH; reflexivity.
  - destruct (p o), (q o); simpl; rewrite ?Ev; exact IH.
Qed.

(** On a record with valid coordinates the comparisons coerce nothing. *)
Lemma inBounds_originWithin b obj :
  validCoordinates obj = true -> inBounds b obj = originWithin b obj.
Proof.
  unfold validCoordinates, inBounds, originWithin.
  destruct (Attributes.latitude (attributes obj)),
           (Attributes.longitude (attributes obj));
    simpl; rewrite ?andb_false_r; try discriminate; reflexivity.
Qed.

Lemma clusterArcs_withinBounds bounds objs maxArcs :
  clusterArcs largeToString
    match bounds with Some b => filter (inBounds b) objs | None => objs end
    maxArcs
  = clusterArcs largeToString (withinBounds bounds objs) maxArcs.
Proof.
  destruct bounds as [b|]; [|reflexivity]. simpl.
  apply clusterArcs_valid, filter_valid_ext, inBounds_originWithin.
Qed.

Lemma inBounds_NaN b obj : hasNaNComponent b = true -> inBounds b obj = false.
Proof.
  unfold hasNaNComponent, inBounds. intros H.
  repeat (apply orb_true_iff in H as [H|H]);
    apply isNaN_NaN in H; rewrite H; unfold JS.ge;
    rewrite ?le_NaN_l, ?le_NaN_r, ?andb_false_r; reflexivity.
Qed.



(** C7, as the code has it.  The selector is total.  A NaN zoom fails both
    band tests and is served by the detailed view under a cap of 1000.  A
    NaN among the bounds is not "no bounds filter": the bounds are not
    looked at up to zoom 8, and above it (or at a NaN zoom) no record
    passes the comparisons with NaN, so the result is empty. *)
Theorem getArcsByZoomLevel_NaN objs :
  (forall bounds,
     getArcsByZoomLevel largeToString objs JS.NaN bounds
     = clusterArcs largeToString (withinBounds bounds objs) 1000) /\
  (forall zoom b,
     hasNaNComponent b = true ->
     (JS.le zoom (JS.ofZ 8) = true ->
      getArcsByZoomLevel largeToString objs zoom (Some b)
      = getArcsByZoomLevel largeToString objs zoom None) /\
     (JS.le zoom (JS.ofZ 8) = false ->
      getArcsByZoomLevel largeToString objs zoom (Some b) = [])).
Proof.
  split.
  - intros bounds. unfold getArcsByZoomLevel.
    destruct (Nat.eqb (List.length objs) 0) eqn:E.
    + rewrite (length_zero_nil _ E). now destruct bounds.
    + rewrite !le_NaN_l. unfold JS.ge. rewrite le_NaN_r.
      apply clusterArcs_withinBounds.
  - intros zoom b Hb. unfold getArcsByZoomLevel.
    destruct (Nat.eqb (List.length objs) 0); [now split|].
    split; intros H8.
    + rewrite H8. now destruct (JS.le zoom (JS.ofZ 4)).
    + rewrite H8. destruct (JS.le zoom (JS.ofZ 4)) eqn:H4.
      * apply le_4_le_8 in H4. congruence.
      * assert (Hnone : filter (inBounds b) objs = []).
        { induction objs as [|o l IH]; simpl; [reflexivity|].
          now rewrite (inBounds_NaN b o Hb). }
        rewrite Hnone. reflexivity.
Qed.

End SelectorProperties.

(** ** Properties of the aggregator *)

Section AggregatorProperties.

Implicit Types (objs : list MuseumObject) (a : CountryAggregation.t).

Lemma aggregateByCountry_In objs a :
  In a (aggregateByCountry objs) <->
  exists c, In c (countries objs) /\
            a = aggregateOf c (filter (inCountry c) objs).
Proof.
  rewrite aggregateByCountry_closed, in_map_iff.
  split; intros [c [H1 H2]]; exists c; auto.
Qed.

Lemma countryOf_label obj c :
  countryOf obj = Some c ->
  Attributes.country_en (attributes obj) = Some c /\
  c <> ""%string /\ c <> "Unknown"%string.
Proof.
  unfold countryOf, orUnknown, nonEmpty.
  destruct (Attributes.country_en (attributes obj)) as [t|]; [|discriminate].
  destruct (String.eqb t "") eqn:Et; [simpl; discriminate|]. rewrite Et.
  destruct (String.eqb t "Unknown") eqn:Eu; [simpl; discriminate|]. simpl.
  intros [= <-]. apply String.eqb_neq in Et, Eu. auto.
Qed.

(** The running centroid only depends on the valid points. *)
Lemma runningCentroid_points members : forall c,
  fold_left centroid_step members c
  = fold_left (fun c p => if unseeded c then p else average c p)
              (map originPoint (filter validOrigin members)) c.
Proof.
  induction members as [|o members IH]; intros c; simpl; [reflexivity|].
  rewrite IH. unfold centroid_step.
  destruct (validOrigin o); reflexivity.
Qed.

Lemma neverUnseeded_average points : forall c,
  neverUnseeded c points = true ->
  fold_left (fun c p => if unseeded c then p else average c p) points c
  = fold_left average points c.
Proof.
  induction points as [|p points IH]; intros c; simpl; [reflexivity|].
  intros H. apply andb_true_iff in H as [Hc H].
  apply negb_true_iff in Hc. rewrite Hc. now apply IH.
Qed.

Lemma runningCentroid_staysSeeded members :
  staysSeeded members = true -> runningCentroid members = specCentroid members.
Proof.
  unfold staysSeeded, specCentroid, runningCentroid.
  rewrite runningCentroid_points.
  destruct (map originPoint (filter validOrigin members)) as [|p rest];
    [reflexivity|].
  intros H. simpl. change (unseeded (JS.ofZ 0, JS.ofZ 0)) with true.
  now apply neverUnseeded_average.
Qed.

Lemma centroid_step_invalid c obj :
  validOrigin obj = false -> centroid_step c obj = c.
Proof. unfold centroid_step. now intros ->. Qed.

Lemma zeroCoordinate_invalid obj :
  zeroCoordinate obj = true -> validOrigin obj = false.
Proof.
  unfold zeroCoordinate, validOrigin, isZero, truthy.
  destruct (Attributes.latitude (attributes obj)) as [| |[| | |]],
           (Attributes.longitude (attributes obj)) as [| |[| | |]];
    simpl; congruence.
Qed.

Lemma runningCentroid_invalid members :
  Forall (fun o => validOrigin o = false) members ->
  runningCentroid members = (JS.ofZ 0, JS.ofZ 0).
Proof.
  induction members as [|o members IH] using rev_ind; [reflexivity|].
  intros H. apply Forall_app in H as [H1 H2]. inversion H2; subst.
  rewrite runningCentroid_snoc, centroid_step_invalid by assumption. auto.
Qed.

(** What the code computes.  The aggregate of a country holds the records
    of that country in input order, and its centroid is the running
    centroid of these records: a record without valid (truthy) origin
    coordinates leaves it alone; a record with valid coordinates seeds a
    centroid that is (0, 0), which the first such record always finds, and
    is averaged into any other centroid, [(centroid + point) / 2].  So the
    centroid is the pairwise average of §4.3 as long as no running average
    comes back to (0, 0).  The two records of France at (2, 48) and
    (3, 49) give the centroid (2.5, 48.5). *)
Lemma aggregateByCountry_running_centroid objs :
  (forall a,
     In a (aggregateByCountry objs) ->
     CountryAggregation.objects a
     = filter (inCountry (CountryAggregation.country a)) objs /\
     centroid a = runningCentroid (CountryAggregation.objects a) /\
     (staysSeeded (CountryAggregation.objects a) = true ->
      centroid a = specCentroid (CountryAggregation.objects a))) /\
  (forall members obj,
     runningCentroid (members ++ [obj])
     = if validOrigin obj then
         if unseeded (runningCentroid members) then originPoint obj
         else average (runningCentroid members) (originPoint obj)
       else runningCentroid members) /\
  aggregateByCountry [Sample.france1; Sample.france2; Sample.nowhere]
  = [CountryAggregation.mk "France" 2 (JS.dec 485 1) (JS.dec 25 1)
       [Sample.france1; Sample.france2]].
Proof.
  split; [|split; [exact runningCentroid_snoc|reflexivity]].
  intros a Ha. apply aggregateByCountry_In in Ha as [c [_ ->]].
  split; [reflexivity|].
  assert (Hc : centroid (aggregateOf c (filter (inCountry c) objs))
               = runningCentroid (filter (inCountry c) objs)).
  { unfold centroid. simpl.
    now destruct (runningCentroid (filter (inCountry c) objs)). }
  split; [exact Hc|]. simpl. intros Hs. rewrite Hc.
  now apply runningCentroid_staysSeeded.
Qed.

(** C8.  A record whose country label is missing or empty is a member of
    no aggregate, and no aggregate is labelled "Unknown". *)
Theorem aggregateByCountry_excludes_unlabelled objs obj a :
  Attributes.country_en (attributes obj) = None \/
  Attributes.country_en (attributes obj) = Some ""%string ->
  In a (aggregateByCountry objs) ->
  ~ In obj (CountryAggregation.objects a) /\
  CountryAggregation.country a <> "Unknown"%string.
Proof.
  intros Hobj Ha. apply aggregateByCountry_In in Ha as [c [Hc ->]]. simpl. split.
  - intros Hin. apply filter_In in Hin as [_ Hin].
    apply inCountry_iff, countryOf_label in Hin as [Hl [Hne _]].
    destruct Hobj as [Hobj|Hobj]; congruence.
  - apply countries_In in Hc as [o [_ Ho]].
    now apply countryOf_label in Ho.
Qed.

(** C10.  A record whose origin latitude or longitude is 0 has no valid
    coordinates for the centroid.  Appended to the input, it joins the
    members of its country and raises the count by one, and the centroid
    stays the one the earlier records of the country gave; and a country
    all of whose records have a zero coordinate keeps the centroid
    (0, 0). *)
Theorem aggregateByCountry_zero_coordinate objs a :
  (forall obj,
     zeroCoordinate obj = true ->
     In a (aggregateByCountry (objs ++ [obj])) ->
     countryOf obj = Some (CountryAggregation.country a) ->
     let before := filter (inCountry (CountryAggregation.country a)) objs in
     (CountryAggregation.objects a = before ++ [obj] /\
      CountryAggregation.count a = Z.of_nat (List.length before) + 1 /\
      centroid a = runningCentroid before) /\
     forall a',
       In a' (aggregateByCountry objs) ->
       CountryAggregation.country a' = CountryAggregation.country a ->
       CountryAggregation.objects a = CountryAggregation.objects a' ++ [obj] /\
       CountryAggregation.count a = CountryAggregation.count a' + 1 /\
       centroid a = centroid a') /\
  (In a (aggregateByCountry objs) ->
   (forall obj, In obj objs ->
                countryOf obj = Some (CountryAggregation.country a) ->
                zeroCoordinate obj = true) ->
   centroid a = (JS.ofZ 0, JS.ofZ 0)).
Proof.
  split.
  - intros obj Hz Ha Hc. apply aggregateByCountry_In in Ha as [c [_ ->]].
    simpl in *. rewrite filter_snoc, (proj2 (inCountry_iff c obj) Hc).
    assert (Hcentroid :
      centroid (aggregateOf c (filter (inCountry c) objs ++ [obj]))
      = runningCentroid (filter (inCountry c) objs)).
    { unfold centroid. simpl. rewrite runningCentroid_snoc.
      rewrite centroid_step_invalid by now apply zeroCoordinate_invalid.
      now destruct (runningCentroid (filter (inCountry c) objs)). }
    assert (Hcount : Z.of_nat (List.length (filter (inCountry c) objs ++ [obj]))
                     = Z.of_nat (List.length (filter (inCountry c) objs)) + 1)
      by (rewrite length_app; simpl; lia).
    split; [repeat split; assumption|].
    intros a' Ha' Hc'. apply aggregateByCountry_In in Ha' as [c' [_ ->]].
    simpl in Hc'. subst c'. simpl. repeat split; [exact Hcount|].
    rewrite Hcentroid. unfold centroid. simpl.
    now destruct (runningCentroid (filter (inCountry c) objs)).
  - intros Ha Hall. apply aggregateByCountry_In in Ha as [c [_ ->]].
    simpl in Hall. unfold centroid. simpl.
    rewrite runningCentroid_invalid; [reflexivity|].
    apply Forall_forall. intros o Ho. apply filter_In in Ho as [Ho Hc].
    apply zeroCoordinate_invalid, Hall; [exact Ho|now apply inCountry_iff].
Qed.

End AggregatorProperties.

(** ** The properties on the sample data *)

Section Samples.

Import Sample.

Local Open Scope string_scope.

(** C1 on the code.  [nearby] has origin (10.001, 20) and institution
    (10.002, 20), equal once rounded to two decimals.  [countUniqueArcs]
    compares the rounded strings and skips it; [clusterArcs] compares the
    numbers, keeps it, and returns an arc from "10.00,20.00" to
    "10.00,20.00" with [nearby] as its member. *)
Theorem clusterArcs_keeps_rounded_no_movement :
  roundedNoMovement largeToString nearby = true /\
  countUniqueArcs largeToString [nearby] = 0 /\
  noMovement nearby = false /\
  clusterArcs largeToString [nearby] 2000
  = [ClusteredArc.mk "10.00,20.00-10.00,20.00"
       (sourcePos nearby) (targetPos nearby) 1 [nearby] (Some object)].
Proof. repeat split. Qed.

(** C5 on the code.  [nearby] has valid coordinates and no displacement
    once rounded, so the records with valid coordinates less the
    no-displacement records are none; yet under a cap that does not bite
    [clusterArcs] returns an arc of count 1 for it, and the counts are not
    conserved.  The defect is the one of C1: the test is made on the
    unrounded numbers. *)
Theorem clusterArcs_count_not_conserved :
  validCoordinates nearby = true /\
  roundedNoMovement largeToString nearby = true /\
  Z.of_nat (List.length (objectClusters largeToString [nearby])) <= 2000 /\
  sumCounts (clusterArcs largeToString [nearby] 2000) = 1 /\
  Z.of_nat (List.length (filter validCoordinates [nearby]))
  - Z.of_nat (List.length (filter (roundedNoMovement largeToString)
                                  (filter validCoordinates [nearby]))) = 0.
Proof. repeat split. vm_compute. discriminate. Qed.

(** C2 fails at a cap of 0: the records give four arcs, the capped
    result is not the uncapped one. *)
Lemma nonpositive_cap_counterexample :
  0 <= 0 /\
  clusterArcs largeToString records 0 <> objectClusters largeToString records.
Proof. split; [lia|]. vm_compute. discriminate. Qed.

Lemma clusterArcs_nonpositive_cap_witness :
  -1 <= 0 /\
  clusterArcs largeToString records (-1)
  <> objectClusters largeToString records.
Proof.
  split; [lia|].
  destruct (clusterArcs_nonpositive_cap largeToString records (-1))
    as (_ & _ & H); [lia|].
  apply H. vm_compute. discriminate.
Defined.

Lemma capped_clusters_topK_witness :
  0 < 2 /\
  2 < Z.of_nat (List.length (objectClusters largeToString records)) /\
  topK (objectClusters largeToString records)
       (clusterArcs largeToString records 2) (Z.to_nat 2).
Proof.
  assert (H0 : 0 < 2) by lia.
  assert (H2 : 2 < Z.of_nat (List.length (objectClusters largeToString records)))
    by (vm_compute; reflexivity).
  destruct (capped_clusters_topK largeToString records 2 H0) as ((_ & H) & _).
  split; [exact H0|]. split; [exact H2|exact (proj1 (H H2))].
Defined.

(** C7 fails above zoom 8 when the southern bound is NaN: every record is
    filtered out, whereas without bounds four arcs are returned. *)
Lemma nan_bounds_counterexample :
  hasNaNComponent nanBounds = true /\
  getArcsByZoomLevel largeToString records (JS.ofZ 9) (Some nanBounds) = [] /\
  getArcsByZoomLevel largeToString records (JS.ofZ 9) (Some nanBounds)
  <> getArcsByZoomLevel largeToString records (JS.ofZ 9) None.
Proof. repeat split. vm_compute. discriminate. Qed.

Lemma getArcsByZoomLevel_NaN_witness :
  hasNaNComponent nanBounds = true /\
  JS.le (JS.ofZ 9) (JS.ofZ 8) = false /\
  getArcsByZoomLevel largeToString records (JS.ofZ 9) (Some nanBounds) = [].
Proof.
  assert (Hb : hasNaNComponent nanBounds = true) by reflexivity.
  destruct (getArcsByZoomLevel_NaN largeToString records) as (_ & H).
  destruct (H (JS.ofZ 9) nanBounds Hb) as (_ & H9).
  split; [exact Hb|]. split; [reflexivity|]. apply H9. reflexivity.
Defined.

(** C4 on the code.  Three records of one country at (1, 1), (-1, -1) and
    (4, 4), all with valid coordinates: the first seeds the centroid, the
    second is averaged into it and gives (0, 0), and the third, instead
    of being averaged into it, seeds it again, because (0, 0) is also the
    mark of a centroid that has not been seeded.  The centroid is (4, 4)
    where the running pairwise average is (2, 2). *)
Theorem aggregateByCountry_reseeds_centroid :
  map centroid (aggregateByCountry [east1]) = [(JS.ofZ 1, JS.ofZ 1)] /\
  map centroid (aggregateByCountry [east1; west1]) = [(JS.ofZ 0, JS.ofZ 0)] /\
  map centroid (aggregateByCountry [east1; west1; east4])
  = [(JS.ofZ 4, JS.ofZ 4)] /\
  specCentroid [east1; west1; east4] = (JS.ofZ 2, JS.ofZ 2) /\
  map centroid (aggregateByCountry [east1; west1; east4])
  <> [specCentroid [east1; west1; east4]].
Proof. repeat split. vm_compute. discriminate. Qed.

Lemma aggregateByCountry_excludes_unlabelled_witness :
  let a := aggregateOf "France" [france1; france2] in
  Attributes.country_en (attributes nowhere) = None /\
  In a (aggregateByCountry [france1; france2; nowhere]) /\
  ~ In nowhere (CountryAggregation.objects a).
Proof.
  intros a.
  assert (Hl : Attributes.country_en (attributes nowhere) = None) by reflexivity.
  assert (Ha : In a (aggregateByCountry [france1; france2; nowhere]))
    by (left; reflexivity).
  split; [exact Hl|]. split; [exact Ha|].
  apply (aggregateByCountry_excludes_unlabelled
           [france1; france2; nowhere] nowhere a (or_introl Hl) Ha).
Defined.

Lemma aggregateByCountry_zero_coordinate_witness :
  (let a := aggregateOf "Gabon" [east1; onEquator] in
   zeroCoordinate onEquator = true /\
   In a (aggregateByCountry ([east1] ++ [onEquator])) /\
   centroid a = runningCentroid [east1]) /\
  (let a := aggregateOf "Gabon" [onEquator; onMeridian] in
   In a (aggregateByCountry [onEquator; onMeridian]) /\
   centroid a = (JS.ofZ 0, JS.ofZ 0)).
Proof.
  split; intros a.
  - assert (Hz : zeroCoordinate onEquator = true) by reflexivity.
    assert (Ha : In a (aggregateByCountry ([east1] ++ [onEquator])))
      by (left; reflexivity).
    split; [exact Hz|]. split; [exact Ha|].
    destruct (aggregateByCountry_zero_coordinate [east1] a) as (H & _).
    apply (H onEquator Hz Ha eq_refl).
  - assert (Ha : In a (aggregateByCountry [onEquator; onMeridian]))
      by (left; reflexivity).
    split; [exact Ha|].
    destruct (aggregateByCountry_zero_coordinate [onEquator; onMeridian] a)
      as (_ & H).
    apply (H Ha). intros obj [<-|[<-|[]]] _; reflexivity.
Defined.

End Samples.

(** ** Grouping in closed form *)

Section GroupingFacts.

Variable keyOf : MuseumObject -> option string.
Variable lvl : Level.

Implicit Types (objs : list MuseumObject) (k : string).

Lemma keysSeen_snoc objs obj :
  keysSeen keyOf (objs ++ [obj])
  = match keyOf obj with
    | Some k => setAdd k (keysSeen keyOf objs)
    | None => keysSeen keyOf objs
    end.
Proof. unfold keysSeen. now rewrite fold_left_app. Qed.

Lemma setAdd_In k k' (seen : list string) :
  In k' (setAdd k seen) <-> k' = k \/ In k' seen.
Proof.
  unfold setAdd. destruct (existsb (String.eqb k) seen) eqn:E.
  - apply existsb_eqb_In in E. split; [auto|]. intros [->|H]; auto.
  - rewrite in_app_iff. simpl. intuition.
Qed.

Lemma setAdd_NoDup k (seen : list string) : NoDup seen -> NoDup (setAdd k seen).
Proof.
  intros H. unfold setAdd. destruct (existsb (String.eqb k) seen) eqn:E; [exact H|].
  apply NoDup_app; repeat split; [exact H|repeat constructor; intros []|].
  intros x Hx [<-|[]]. apply existsb_eqb_In in Hx. congruence.
Qed.

Lemma keysSeen_NoDup objs : NoDup (keysSeen keyOf objs).
Proof.
  induction objs as [|obj objs IH] using rev_ind; [constructor|].
  rewrite keysSeen_snoc. destruct (keyOf obj); [now apply setAdd_NoDup|exact IH].
Qed.

Lemma keysSeen_In objs k :
  In k (keysSeen keyOf objs) <-> exists obj, In obj objs /\ keyOf obj = Some k.
Proof.
  induction objs as [|obj objs IH] using rev_ind.
  - split; [intros []|intros [? [[] _]]].
  - rewrite keysSeen_snoc.
    assert (Hsnoc : forall o, In o (objs ++ [obj]) <-> In o objs \/ o = obj).
    { intros o. rewrite in_app_iff. simpl. intuition. }
    destruct (keyOf obj) as [k'|] eqn:Ek.
    + rewrite setAdd_In, IH. split.
      * intros [->|[o [Ho Hk]]]; [exists obj|exists o]; rewrite Hsnoc; auto.
      * intros [o [Ho Hk]]. apply Hsnoc in Ho as [Ho| ->].
        -- right. eauto.
        -- left. congruence.
    + rewrite IH. split; intros [o [Ho Hk]].
      * exists o. rewrite Hsnoc. auto.
      * apply Hsnoc in Ho as [Ho| ->]; [eauto|congruence].
Qed.

Lemma hasKey_iff k obj : hasKey keyOf k obj = true <-> keyOf obj = Some k.
Proof.
  unfold hasKey. destruct (keyOf obj) as [k'|]; [|split; discriminate].
  rewrite String.eqb_eq. split; congruence.
Qed.

Lemma hasKey_false k obj : keyOf obj <> Some k -> hasKey keyOf k obj = false.
Proof.
  intros H. destruct (hasKey keyOf k obj) eqn:E; [|reflexivity].
  now apply hasKey_iff in E.
Qed.

Lemma filter_hasKey_unseen k objs :
  ~ In k (keysSeen keyOf objs) -> filter (hasKey keyOf k) objs = [].
Proof.
  intros Hk. destruct (filter (hasKey keyOf k) objs) as [|o l] eqn:Ef; [reflexivity|].
  assert (Ho : In o (filter (hasKey keyOf k) objs)) by (rewrite Ef; now left).
  apply filter_In in Ho as [Ho Hin]. apply hasKey_iff in Hin.
  exfalso. apply Hk, keysSeen_In. eauto.
Qed.

Lemma filter_hasKey_seen k objs :
  In k (keysSeen keyOf objs) -> filter (hasKey keyOf k) objs <> [].
Proof.
  intros Hk. apply keysSeen_In in Hk as [o [Ho Hk]].
  assert (Hin : In o (filter (hasKey keyOf k) objs))
    by (apply filter_In; split; [exact Ho|now apply hasKey_iff]).
  intros E. now rewrite E in Hin.
Qed.

Lemma addMember_arcOf k (members : list MuseumObject) obj :
  members <> [] ->
  addMember obj (arcOf lvl k members) = arcOf lvl k (members ++ [obj]).
Proof.
  destruct members as [|o members]; [congruence|]. intros _.
  unfold addMember, arcOf. simpl. f_equal.
  rewrite length_app. simpl. lia.
Qed.

(** One step of a clusterer whose records are filed under [keyOf] *)
Lemma addToCluster_closed done_ obj k :
  keyOf obj = Some k ->
  addToCluster k lvl obj
    (map (fun k => (k, arcOf lvl k (filter (hasKey keyOf k) done_)))
         (keysSeen keyOf done_))
  = map (fun k => (k, arcOf lvl k (filter (hasKey keyOf k) (done_ ++ [obj]))))
        (keysSeen keyOf (done_ ++ [obj])).
Proof.
  intros Hk. unfold addToCluster. rewrite keysSeen_snoc, Hk, has_map.
  unfold setAdd.
  destruct (existsb (String.eqb k) (keysSeen keyOf done_)) eqn:E.
  - apply update_map; [apply keysSeen_NoDup| |].
    + rewrite filter_snoc, (proj2 (hasKey_iff k obj) Hk).
      symmetry. apply addMember_arcOf, filter_hasKey_seen.
      now apply existsb_eqb_In.
    + intros k' _ Hne. rewrite filter_snoc.
      rewrite hasKey_false; [reflexivity|congruence].
  - assert (Hnew : ~ In k (keysSeen keyOf done_))
      by (rewrite <- existsb_eqb_In; congruence).
    rewrite set_absent by (now rewrite has_map).
    rewrite map_app. simpl. f_equal.
    + apply map_ext_in. intros k' Hk'. rewrite filter_snoc.
      rewrite hasKey_false; [reflexivity|]. congruence.
    + rewrite filter_snoc, (proj2 (hasKey_iff k obj) Hk).
      now rewrite (filter_hasKey_unseen _ _ Hnew).
Qed.

Lemma skip_closed done_ obj :
  keyOf obj = None ->
  map (fun k => (k, arcOf lvl k (filter (hasKey keyOf k) done_)))
      (keysSeen keyOf done_)
  = map (fun k => (k, arcOf lvl k (filter (hasKey keyOf k) (done_ ++ [obj]))))
        (keysSeen keyOf (done_ ++ [obj])).
Proof.
  intros Hk. rewrite keysSeen_snoc, Hk. apply map_ext. intros k.
  rewrite filter_snoc, hasKey_false; [reflexivity|congruence].
Qed.

(** A fold whose step files every record under [keyOf] gives one arc per
    key, in the order the keys are first seen, holding the records of the
    key in input order. *)
Lemma grouping_closed (step : Map ClusteredArc.t -> MuseumObject -> Map ClusteredArc.t) :
  (forall m obj, step m obj = match keyOf obj with
                              | Some k => addToCluster k lvl obj m
                              | None => m
                              end) ->
  forall objs,
    values (fold_left step objs [])
    = map (fun k => arcOf lvl k (filter (hasKey keyOf k) objs))
          (keysSeen keyOf objs).
Proof.
  intros Hstep objs.
  assert (H : forall rest done_,
    fold_left step rest
      (map (fun k => (k, arcOf lvl k (filter (hasKey keyOf k) done_)))
           (keysSeen keyOf done_))
    = map (fun k => (k, arcOf lvl k (filter (hasKey keyOf k) (done_ ++ rest))))
          (keysSeen keyOf (done_ ++ rest))).
  { induction rest as [|obj rest IH]; intros done_; simpl.
    - now rewrite app_nil_r.
    - rewrite Hstep. destruct (keyOf obj) as [k|] eqn:Ek.
      + rewrite (addToCluster_closed _ _ _ Ek), IH, <- app_assoc. reflexivity.
      + rewrite (skip_closed _ _ Ek), IH, <- app_assoc. reflexivity. }
  specialize (H objs []). simpl in H. rewrite H.
  unfold values. now rewrite map_map.
Qed.

End GroupingFacts.

(** ** The structure of the clusters *)

Section ClusterStructure.

Variable largeToString : positive -> Z -> string.

Implicit Types (objs : list MuseumObject) (a : ClusteredArc.t).

Lemma filter_twice {A} (p q : A -> bool) (l : list A) :
  filter p (filter q l) = filter (fun x => q x && p x) l.
Proof.
  induction l as [|x l IH]; simpl; [reflexivity|].
  destruct (q x); simpl; [destruct (p x)|]; now rewrite IH.
Qed.

Lemma fold_left_ext_in {S X} (f g : S -> X -> S) (l : list X) :
  (forall s x, In x l -> f s x = g s x) ->
  forall s, fold_left f l s = fold_left g l s.
Proof.
  induction l as [|x l IH]; intros H s; simpl; [reflexivity|].
  rewrite H by now left. apply IH. intros s' x' Hx. apply H. now right.
Qed.

Lemma objectClusters_closed objs :
  objectClusters largeToString objs
  = map (fun k => arcOf object k
                    (filter (hasKey (objectKey largeToString) k)
                            (filter validCoordinates objs)))
        (keysSeen (objectKey largeToString) (filter validCoordinates objs)).
Proof.
  unfold objectClusters. apply grouping_closed.
  intros m obj. unfold clusterArcs_step, objectKey.
  now destruct (noMovement obj).
Qed.

Lemma cityClusters_closed objs :
  cityClusters objs
  = map (fun k => arcOf city k
                    (filter (hasKey cityPairKey k) (filter validCity objs)))
        (keysSeen cityPairKey (filter validCity objs)).
Proof.
  unfold cityClusters. apply grouping_closed.
  intros m obj. unfold clusterArcsByCity_step, cityPairKey.
  now destruct (_ || _).
Qed.

Lemma clusterArcs_In objs maxArcs a :
  In a (clusterArcs largeToString objs maxArcs) ->
  exists k,
    In k (keysSeen (objectKey largeToString) (filter validCoordinates objs)) /\
    a = arcOf object k (filter (hasKey (objectKey largeToString) k)
                               (filter validCoordinates objs)).
Proof.
  rewrite clusterArcs_cap. intros H. apply capArcs_incl in H.
  rewrite objectClusters_closed in H. apply in_map_iff in H as [k [E Hk]].
  exists k. auto.
Qed.

Lemma clusterArcsByCity_In objs maxArcs a :
  In a (clusterArcsByCity objs maxArcs) ->
  exists k,
    In k (keysSeen cityPairKey (filter validCity objs)) /\
    a = arcOf city k (filter (hasKey cityPairKey k) (filter validCity objs)).
Proof.
  rewrite clusterArcsByCity_cap. intros H. apply capArcs_incl in H.
  rewrite cityClusters_closed in H. apply in_map_iff in H as [k [E Hk]].
  exists k. auto.
Qed.

Lemma arcOf_ids (keyOf : MuseumObject -> option string) lvl objs
  (keys : list string) :
  map ClusteredArc.id
    (map (fun k => arcOf lvl k (filter (hasKey keyOf k) objs)) keys) = keys.
Proof. rewrite map_map. simpl. apply map_id. Qed.

Lemma NoDup_firstn {A} (n : nat) (l : list A) : NoDup l -> NoDup (firstn n l).
Proof.
  intros H. rewrite <- (firstn_skipn n l) in H.
  now apply NoDup_app_remove_r in H.
Qed.

Lemma capArcs_ids_NoDup arcs maxArcs :
  NoDup (map ClusteredArc.id arcs) ->
  NoDup (map ClusteredArc.id (capArcs arcs maxArcs)).
Proof.
  intros H. unfold capArcs. destruct (_ >? _); [|exact H].
  unfold slice0. rewrite <- firstn_map. apply NoDup_firstn.
  eapply Permutation_NoDup; [|exact H].
  apply Permutation_map, Permutation_sym, sort_perm.
Qed.

(** X1.  Whatever the cap, no two arcs of a result share an id; without
    a cap the ids are the keys of the records in the order in which they
    are first met. *)
Theorem cluster_ids_distinct objs maxArcs :
  (NoDup (map ClusteredArc.id (clusterArcs largeToString objs maxArcs)) /\
   NoDup (map ClusteredArc.id (clusterArcsByCity objs maxArcs))) /\
  map ClusteredArc.id (objectClusters largeToString objs)
  = keysSeen (objectKey largeToString) (filter validCoordinates objs) /\
  map ClusteredArc.id (cityClusters objs)
  = keysSeen cityPairKey (filter validCity objs).
Proof.
  assert (Ho := objectClusters_closed objs).
  assert (Hc := cityClusters_closed objs).
  assert (Hio : map ClusteredArc.id (objectClusters largeToString objs)
                = keysSeen (objectKey largeToString) (filter validCoordinates objs))
    by (rewrite Ho; apply arcOf_ids).
  assert (Hic : map ClusteredArc.id (cityClusters objs)
                = keysSeen cityPairKey (filter validCity objs))
    by (rewrite Hc; apply arcOf_ids).
  split; [split|split; assumption].
  - rewrite clusterArcs_cap. apply capArcs_ids_NoDup.
    rewrite Hio. apply keysSeen_NoDup.
  - rewrite clusterArcsByCity_cap. apply capArcs_ids_NoDup.
    rewrite Hic. apply keysSeen_NoDup.
Qed.

Lemma hasKey_objectKey k obj :
  hasKey (objectKey largeToString) k obj
  = negb (noMovement obj) && String.eqb k (arcKey largeToString obj).
Proof. unfold hasKey, objectKey. now destruct (noMovement obj). Qed.

Lemma arc_members objs maxArcs a :
  In a (clusterArcs largeToString objs maxArcs) ->
  ClusteredArc.objects a
  = filter (fun o => clustered o
                     && String.eqb (ClusteredArc.id a) (arcKey largeToString o))
           objs.
Proof.
  intros H. apply clusterArcs_In in H as [k [_ ->]]. simpl.
  rewrite filter_twice. apply filter_ext. intros o.
  rewrite hasKey_objectKey. unfold clustered. now rewrite andb_assoc.
Qed.

(** X2.  The members of an arc of [clusterArcs] are the records with
    valid coordinates that move and whose rounded key is the id of the
    arc, in input order; the cap removes whole arcs and leaves the members
    of the others alone. *)
Theorem clusterArcs_members objs maxArcs a :
  In a (clusterArcs largeToString objs maxArcs) ->
  ClusteredArc.objects a
  = filter (fun o => clustered o
                     && String.eqb (ClusteredArc.id a) (arcKey largeToString o))
           objs.
Proof. exact (arc_members objs maxArcs a). Qed.

Lemma arc_positions objs maxArcs a :
  In a (clusterArcs largeToString objs maxArcs) \/
  In a (clusterArcsByCity objs maxArcs) ->
  exists first rest,
    ClusteredArc.objects a = first :: rest /\
    ClusteredArc.sourcePosition a = sourcePos first /\
    ClusteredArc.targetPosition a = targetPos first /\
    (In a (clusterArcs largeToString objs maxArcs) ->
     ClusteredArc.level a = Some object /\
     Forall (fun o => arcKey largeToString o = ClusteredArc.id a)
            (ClusteredArc.objects a)).
Proof.
  assert (Hshape : forall keyOf lvl k l,
            In k (keysSeen keyOf l) ->
            exists first rest,
              filter (hasKey keyOf k) l = first :: rest /\
              ClusteredArc.sourcePosition (arcOf lvl k (filter (hasKey keyOf k) l))
              = sourcePos first /\
              ClusteredArc.targetPosition (arcOf lvl k (filter (hasKey keyOf k) l))
              = targetPos first).
  { intros keyOf lvl k l Hk. apply filter_hasKey_seen in Hk.
    destruct (filter (hasKey keyOf k) l) as [|o rest]; [congruence|].
    exists o, rest. auto. }
  intros [H|H].
  - apply clusterArcs_In in H as [k [Hk ->]].
    destruct (Hshape _ object _ _ Hk) as (o & rest & E & Hs & Ht).
    exists o, rest. simpl.
    split; [exact E|]. split; [exact Hs|]. split; [exact Ht|].
    intros _. split; [reflexivity|].
    apply Forall_forall. intros x Hx. apply filter_In in Hx as [_ Hx].
    apply hasKey_iff in Hx. unfold objectKey in Hx.
    destruct (noMovement x); congruence.
  - pose proof H as H'. apply clusterArcsByCity_In in H as [k [Hk ->]].
    destruct (Hshape _ city _ _ Hk) as (o & rest & E & Hs & Ht).
    exists o, rest. simpl.
    split; [exact E|]. split; [exact Hs|]. split; [exact Ht|].
    intros Hin. apply clusterArcs_In in Hin as [k' [_ Heq]]. discriminate Heq.
Qed.

(** X3.  An arc has at least one member and carries the positions of its
    first member: they are not averaged over the members.  Object-level
    arcs have the rounded key of each member as id. *)
Theorem cluster_positions objs maxArcs a :
  In a (clusterArcs largeToString objs maxArcs) \/
  In a (clusterArcsByCity objs maxArcs) ->
  exists first rest,
    ClusteredArc.objects a = first :: rest /\
    ClusteredArc.sourcePosition a = sourcePos first /\
    ClusteredArc.targetPosition a = targetPos first /\
    (In a (clusterArcs largeToString objs maxArcs) ->
     ClusteredArc.level a = Some object /\
     Forall (fun o => arcKey largeToString o = ClusteredArc.id a)
            (ClusteredArc.objects a)).
Proof. exact (arc_positions objs maxArcs a). Qed.

(** X4.  Under a cap that does not bite, the arcs partition the records
    that are clustered: each record with valid coordinates that moves is
    a member of one arc and of no other. *)
Theorem clusterArcs_partition objs maxArcs obj :
  Z.of_nat (List.length (objectClusters largeToString objs)) <= maxArcs ->
  In obj objs -> clustered obj = true ->
  exists a,
    In a (clusterArcs largeToString objs maxArcs) /\
    In obj (ClusteredArc.objects a) /\
    forall a', In a' (clusterArcs largeToString objs maxArcs) ->
               In obj (ClusteredArc.objects a') -> a' = a.
Proof.
  intros Hcap Hin Hc. unfold clustered in Hc.
  apply andb_true_iff in Hc as [Hv Hm]. apply negb_true_iff in Hm.
  set (valid := filter validCoordinates objs).
  assert (Hinv : In obj valid) by (apply filter_In; auto).
  assert (Hkey : objectKey largeToString obj = Some (arcKey largeToString obj))
    by (unfold objectKey; now rewrite Hm).
  exists (arcOf object (arcKey largeToString obj)
            (filter (hasKey (objectKey largeToString) (arcKey largeToString obj))
                    valid)).
  repeat split.
  - rewrite (clusterArcs_uncapped _ _ _ Hcap), objectClusters_closed.
    apply in_map_iff. exists (arcKey largeToString obj). split; [reflexivity|].
    apply keysSeen_In. eauto.
  - simpl. apply filter_In. split; [exact Hinv|now apply hasKey_iff].
  - intros a' Ha' Hobj. apply clusterArcs_In in Ha' as [k [_ ->]].
    simpl in Hobj. apply filter_In in Hobj as [_ Hobj].
    apply hasKey_iff in Hobj. rewrite Hkey in Hobj.
    injection Hobj as <-. reflexivity.
Qed.

Lemma clusterArcs_step_skip (l : list MuseumObject) : forall m,
  fold_left (clusterArcs_step largeToString)
            (filter (fun o => negb (noMovement o)) l) m
  = fold_left (clusterArcs_step largeToString) l m.
Proof.
  induction l as [|o l IH]; intros m; simpl; [reflexivity|].
  destruct (noMovement o) eqn:E; simpl; rewrite IH; [|reflexivity].
  replace (clusterArcs_step largeToString m o) with m; [reflexivity|].
  unfold clusterArcs_step. now rewrite E.
Qed.

(** X5.  [clusterArcs] sees the clustered records only: dropping every
    record without valid coordinates and every record that does not move
    from the input changes nothing. *)
Theorem clusterArcs_clustered_only objs maxArcs :
  clusterArcs largeToString (filter clustered objs) maxArcs
  = clusterArcs largeToString objs maxArcs.
Proof.
  rewrite !clusterArcs_cap. f_equal. unfold objectClusters.
  assert (Hv : filter validCoordinates (filter clustered objs)
               = filter (fun o => negb (noMovement o))
                        (filter validCoordinates objs)).
  { rewrite !filter_twice. apply filter_ext. intros o. unfold clustered.
    destruct (validCoordinates o), (noMovement o); reflexivity. }
  rewrite Hv. f_equal. apply clusterArcs_step_skip.
Qed.

End ClusterStructure.

(** ** countUniqueArcs and the arcs of clusterArcs *)

Section UniqueArcs.

Variable largeToString : positive -> Z -> string.

Implicit Types (objs : list MuseumObject).

(** Numbers that are [===] print the same. *)
Lemma strictEq_toFixed2 (x y : JS.number) :
  JS.strictEq x y = true ->
  JS.toFixed2 largeToString x = JS.toFixed2 largeToString y.
Proof.
  unfold JS.strictEq, SFeqb.
  destruct x as [s1|s1| |s1 m1 e1], y as [s2|s2| |s2 m2 e2];
    try destruct s1; try destruct s2; cbn [SFcompare];
    try discriminate; try reflexivity.
  - destruct (Z.compare_spec e1 e2) as [->| |]; try discriminate.
    change (Pos.compare_cont Eq m1 m2) with (Pos.compare m1 m2).
    destruct (Pos.compare_spec m1 m2) as [->| |]; try discriminate. reflexivity.
  - destruct (Z.compare_spec e1 e2) as [->| |]; try discriminate.
    change (Pos.compare_cont Eq m1 m2) with (Pos.compare m1 m2).
    destruct (Pos.compare_spec m1 m2) as [->| |]; try discriminate. reflexivity.
Qed.

Lemma strictEq_value_toFixed2 (a b : value) :
  strictEq a b = true -> toFixed2 largeToString a = toFixed2 largeToString b.
Proof.
  destruct a, b; simpl; try discriminate; try reflexivity.
  apply strictEq_toFixed2.
Qed.

(** A record that does not move does not move once rounded. *)
Lemma noMovement_rounded obj :
  noMovement obj = true -> roundedNoMovement largeToString obj = true.
Proof.
  unfold noMovement, roundedNoMovement. intros H.
  apply andb_true_iff in H as [H1 H2].
  rewrite (strictEq_value_toFixed2 _ _ H1), (strictEq_value_toFixed2 _ _ H2).
  now rewrite !String.eqb_refl.
Qed.

Lemma countUniqueArcs_closed objs :
  countUniqueArcs largeToString objs
  = Z.of_nat (List.length (keysSeen (roundedKey largeToString)
                                    (filter validCoordinates objs))).
Proof.
  unfold countUniqueArcs.
  destruct (Nat.eqb (List.length objs) 0) eqn:E.
  - now rewrite (length_zero_nil _ E).
  - unfold keysSeen. f_equal. f_equal. apply fold_left_ext_in.
    intros seen o _. unfold countUniqueArcs_step, roundedKey.
    now destruct (roundedNoMovement largeToString o).
Qed.

Lemma objectClusters_length objs :
  List.length (objectClusters largeToString objs)
  = List.length (keysSeen (objectKey largeToString)
                          (filter validCoordinates objs)).
Proof. rewrite objectClusters_closed. apply length_map. Qed.

(** X6.  [countUniqueArcs] never counts more arcs than [clusterArcs]
    returns without a cap, every key it counts being the id of one of
    them; and it counts them all when no record with valid coordinates
    moves by less than the rounding shows. *)
Theorem countUniqueArcs_le_clusters objs :
  countUniqueArcs largeToString objs
  <= Z.of_nat (List.length (objectClusters largeToString objs)) /\
  incl (keysSeen (roundedKey largeToString) (filter validCoordinates objs))
       (map ClusteredArc.id (objectClusters largeToString objs)) /\
  ((forall obj, In obj objs -> validCoordinates obj = true ->
                roundedNoMovement largeToString obj = noMovement obj) ->
   countUniqueArcs largeToString objs
   = Z.of_nat (List.length (objectClusters largeToString objs))).
Proof.
  rewrite countUniqueArcs_closed, objectClusters_length.
  assert (Hincl : incl (keysSeen (roundedKey largeToString)
                                 (filter validCoordinates objs))
                       (keysSeen (objectKey largeToString)
                                 (filter validCoordinates objs))).
  { intros k Hk. apply keysSeen_In in Hk as [o [Ho Hk]].
    apply keysSeen_In. exists o. split; [exact Ho|].
    unfold roundedKey in Hk. unfold objectKey.
    destruct (noMovement o) eqn:E; [|now destruct (roundedNoMovement _ o)].
    now rewrite (noMovement_rounded _ E) in Hk. }
  split; [|split].
  - apply inj_le, NoDup_incl_length; [apply keysSeen_NoDup|exact Hincl].
  - rewrite objectClusters_closed, arcOf_ids. exact Hincl.
  - intros Hsame. f_equal. f_equal. unfold keysSeen. apply fold_left_ext_in.
    intros seen o Ho. apply filter_In in Ho as [Ho Hv].
    unfold roundedKey, objectKey. now rewrite (Hsame o Ho Hv).
Qed.

(** X7.  [countUniqueArcs] depends on the set of records only: their
    order and their repetitions do not change the count. *)
Theorem countUniqueArcs_set objs objs' :
  (forall obj, In obj objs <-> In obj objs') ->
  countUniqueArcs largeToString objs = countUniqueArcs largeToString objs'.
Proof.
  intros Hsame. rewrite !countUniqueArcs_closed. f_equal.
  apply Permutation_length, NoDup_Permutation; try apply keysSeen_NoDup.
  intros k. rewrite !keysSeen_In.
  split; intros [o [Ho Hk]]; exists o; (split; [|exact Hk]);
    apply filter_In in Ho as [Ho Hv]; apply filter_In; split; auto;
    now apply Hsame.
Qed.

End UniqueArcs.

(** ** City-level arcs *)

Section CityArcs.

Implicit Types (objs : list MuseumObject) (a : ClusteredArc.t).

Lemma orUnknown_known (label : option string) :
  String.eqb (orUnknown label) "Unknown" = false ->
  exists s, label = Some s /\ s <> ""%string /\ s <> "Unknown"%string /\
            orUnknown label = s.
Proof.
  unfold orUnknown. destruct label as [s|]; [|simpl; discriminate].
  destruct (String.eqb s "") eqn:E; [simpl; discriminate|].
  intros H. exists s. apply String.eqb_neq in E, H. auto.
Qed.

Lemma cityPairKey_Some obj k :
  cityPairKey obj = Some k ->
  exists s t,
    Attributes.city_en (attributes obj) = Some s /\
    Attributes.institution_city_en (attributes obj) = Some t /\
    s <> ""%string /\ s <> "Unknown"%string /\
    t <> ""%string /\ t <> "Unknown"%string /\
    s <> t /\ k = cityKey s t.
Proof.
  unfold cityPairKey.
  destruct (String.eqb (orUnknown (Attributes.city_en (attributes obj)))
                       "Unknown") eqn:Es; [discriminate|].
  destruct (String.eqb (orUnknown (Attributes.institution_city_en (attributes obj)))
                       "Unknown") eqn:Et; [discriminate|].
  apply orUnknown_known in Es as (s & Hs & Hs1 & Hs2 & Es).
  apply orUnknown_known in Et as (t & Ht & Ht1 & Ht2 & Et).
  rewrite Es, Et. simpl.
  destruct (String.eqb s t) eqn:Est; [discriminate|].
  intros [= <-]. apply String.eqb_neq in Est. exists s, t. repeat split; auto.
Qed.

(** X8.  The members of a city arc are the records with valid coordinates
    and the two city labels of its key, in input order; each of them
    names two different cities, neither empty nor "Unknown", and the id
    of the arc is "source-to-target" for these two. *)
Theorem clusterArcsByCity_members objs maxArcs a :
  In a (clusterArcsByCity objs maxArcs) ->
  ClusteredArc.objects a
  = filter (fun o => validCity o && hasKey cityPairKey (ClusteredArc.id a) o) objs /\
  Forall (fun o =>
            validCoordinates o = true /\
            exists s t,
              Attributes.city_en (attributes o) = Some s /\
              Attributes.institution_city_en (attributes o) = Some t /\
              s <> ""%string /\ s <> "Unknown"%string /\
              t <> ""%string /\ t <> "Unknown"%string /\
              s <> t /\ ClusteredArc.id a = cityKey s t)
         (ClusteredArc.objects a).
Proof.
  intros H. apply clusterArcsByCity_In in H as [k [_ ->]]. simpl. split.
  - apply filter_twice.
  - apply Forall_forall. intros o Ho. apply filter_In in Ho as [Ho Hk].
    apply filter_In in Ho as [_ Hv]. apply hasKey_iff in Hk. split.
    + unfold validCity in Hv. now apply andb_true_iff in Hv as [Hv _].
    + now apply cityPairKey_Some.
Qed.

Lemma sumCounts_fold_city objs : forall m,
  sumCounts (values (fold_left clusterArcsByCity_step objs m))
  = sumCounts (values m)
    + Z.of_nat (List.length
                  (filter (fun o => match cityPairKey o with
                                    | Some _ => true
                                    | None => false
                                    end) objs)).
Proof.
  induction objs as [|o objs IH]; intros m; simpl; [lia|].
  rewrite IH. unfold clusterArcsByCity_step, cityPairKey.
  destruct (_ || _); simpl; [reflexivity|].
  rewrite sumCounts_addToCluster. lia.
Qed.

(** X9.  City-level clustering under a cap that does not bite conserves
    counts: the counts add up to the number of records with valid
    coordinates whose two city labels are known and differ. *)
Theorem clusterArcsByCity_count_conservation objs maxArcs :
  Z.of_nat (List.length (cityClusters objs)) <= maxArcs ->
  sumCounts (clusterArcsByCity objs maxArcs)
  = Z.of_nat (List.length
                (filter (fun o => validCity o
                                  && match cityPairKey o with
                                     | Some _ => true
                                     | None => false
                                     end) objs)).
Proof.
  intros H. rewrite clusterArcsByCity_cap, (capArcs_uncapped _ _ H).
  unfold cityClusters. rewrite sumCounts_fold_city, filter_twice. reflexivity.
Qed.

(** X20.  Under a cap that does not bite, a record with valid coordinates
    and two known, different city labels is a member of one city arc and
    of no other. *)
Theorem clusterArcsByCity_partition objs maxArcs obj k :
  Z.of_nat (List.length (cityClusters objs)) <= maxArcs ->
  In obj objs -> validCity obj = true -> cityPairKey obj = Some k ->
  exists a,
    In a (clusterArcsByCity objs maxArcs) /\
    ClusteredArc.id a = k /\
    In obj (ClusteredArc.objects a) /\
    forall a', In a' (clusterArcsByCity objs maxArcs) ->
               In obj (ClusteredArc.objects a') -> a' = a.
Proof.
  intros Hcap Hin Hv Hk.
  assert (Hinv : In obj (filter validCity objs)) by (apply filter_In; auto).
  exists (arcOf city k (filter (hasKey cityPairKey k) (filter validCity objs))).
  split; [|split; [reflexivity|split]].
  - rewrite clusterArcsByCity_cap, (capArcs_uncapped _ _ Hcap).
    rewrite cityClusters_closed. apply in_map_iff. exists k.
    split; [reflexivity|]. apply keysSeen_In. eauto.
  - simpl. apply filter_In. split; [exact Hinv|now apply hasKey_iff].
  - intros a' Ha' Hobj. apply clusterArcsByCity_In in Ha' as [k' [_ ->]].
    simpl in Hobj. apply filter_In in Hobj as [_ Hobj].
    apply hasKey_iff in Hobj. rewrite Hk in Hobj.
    injection Hobj as <-. reflexivity.
Qed.

End CityArcs.

(** ** The selector and the bounds post-filter *)

Section BoundsFacts.

Variable largeToString : positive -> Z -> string.

Implicit Types (objs : list MuseumObject) (a : ClusteredArc.t) (b : Bounds).

Lemma le_trans (x y z : JS.number) :
  JS.le x y = true -> JS.le y z = true -> JS.le x z = true.
Proof.
  unfold JS.le, SFleb.
  destruct x as [s1|s1| |s1 m1 e1], y as [s2|s2| |s2 m2 e2],
           z as [s3|s3| |s3 m3 e3];
    try destruct s1; try destruct s2; try destruct s3;
    cbn [SFcompare]; try congruence;
    change (Pos.compare_cont Eq m1 m2) with (Pos.compare m1 m2);
    change (Pos.compare_cont Eq m2 m3) with (Pos.compare m2 m3);
    change (Pos.compare_cont Eq m1 m3) with (Pos.compare m1 m3);
    destruct (Z.compare_spec e1 e2), (Z.compare_spec e2 e3),
             (Z.compare_spec e1 e3);
    try congruence; try lia;
    destruct (Pos.compare_spec m1 m2), (Pos.compare_spec m2 m3),
             (Pos.compare_spec m1 m3);
    cbn [CompOpp]; try congruence; lia.
Qed.

Lemma pointInBounds_sourcePos b obj :
  pointInBounds b (sourcePos obj) = inBounds b obj.
Proof. reflexivity. Qed.

Lemma pointInBounds_contained outer inner position :
  containsBounds outer inner = true ->
  pointInBounds inner position = true -> pointInBounds outer position = true.
Proof.
  unfold containsBounds, pointInBounds, JS.ge. intros Hc Hp.
  repeat (apply andb_true_iff in Hc as [Hc ?]).
  repeat (apply andb_true_iff in Hp as [Hp ?]).
  repeat (apply andb_true_iff; split); eapply le_trans; eassumption.
Qed.

(** X10.  The number of arcs the selector returns is bounded by its zoom
    band: at most 100 up to zoom 4, at most 500 up to zoom 8, at most 1000
    unless [zoom >= 12], and never more than 2000. *)
Theorem getArcsByZoomLevel_size objs zoom bounds :
  let n := Z.of_nat (List.length
                       (getArcsByZoomLevel largeToString objs zoom bounds)) in
  (JS.le zoom (JS.ofZ 4) = true -> n <= 100) /\
  (JS.le zoom (JS.ofZ 8) = true -> n <= 500) /\
  (JS.ge zoom (JS.ofZ 12) = false -> n <= 1000) /\
  n <= 2000.
Proof.
  assert (Ho : forall l k, 0 < k ->
            Z.of_nat (List.length (clusterArcs largeToString l k)) <= k)
    by (intros l k Hk; rewrite clusterArcs_cap; now apply capArcs_length).
  assert (Hc : forall l k, 0 < k ->
            Z.of_nat (List.length (clusterArcsByCity l k)) <= k)
    by (intros l k Hk; rewrite clusterArcsByCity_cap; now apply capArcs_length).
  unfold getArcsByZoomLevel.
  destruct (Nat.eqb (List.length objs) 0); [simpl; repeat split; intros; lia|].
  destruct (JS.le zoom (JS.ofZ 4)) eqn:H4.
  - rewrite (le_4_le_8 _ H4). pose proof (Ho objs 100 ltac:(lia)).
    cbv zeta. repeat split; intros; lia.
  - destruct (JS.le zoom (JS.ofZ 8)) eqn:H8.
    + pose proof (Hc objs 500 ltac:(lia)).
      cbv zeta. repeat split; intros; try discriminate; lia.
    + destruct (JS.ge zoom (JS.ofZ 12)) eqn:H12; cbv zeta;
        match goal with
        | |- context [clusterArcs largeToString ?l ?k] =>
            pose proof (Ho l k ltac:(lia))
        end; repeat split; intros; try discriminate; lia.
Qed.

Lemma selected_within objs zoom b a :
  JS.le zoom (JS.ofZ 8) = false ->
  In a (getArcsByZoomLevel largeToString objs zoom (Some b)) ->
  pointInBounds b (ClusteredArc.sourcePosition a) = true /\
  Forall (fun o => originWithin b o = true /\ clustered o = true)
         (ClusteredArc.objects a).
Proof.
  intros H8. unfold getArcsByZoomLevel.
  destruct (Nat.eqb (List.length objs) 0); [intros []|].
  destruct (JS.le zoom (JS.ofZ 4)) eqn:H4;
    [apply le_4_le_8 in H4; congruence|].
  rewrite H8. cbv zeta. intros Ha.
  pose proof (arc_members largeToString _ _ _ Ha) as Hm.
  assert (Hall : Forall (fun o => inBounds b o = true /\ clustered o = true)
                        (ClusteredArc.objects a)).
  { rewrite Hm. apply Forall_forall. intros o Ho.
    apply filter_In in Ho as [Ho Hc]. apply filter_In in Ho as [_ Hb].
    apply andb_true_iff in Hc as [Hc _]. auto. }
  split.
  - destruct (arc_positions largeToString _ _ _ (or_introl Ha))
      as (o & rest & E & Hs & _).
    rewrite Hs, pointInBounds_sourcePos. rewrite E in Hall.
    now inversion Hall as [|? ? [Hb _] _].
  - eapply Forall_impl; [|exact Hall]. intros o [Hb Hc]. split; [|exact Hc].
    rewrite <- inBounds_originWithin; [exact Hb|].
    unfold clustered in Hc. now apply andb_true_iff in Hc as [Hc _].
Qed.

(** X11.  Above zoom 8 (and at a NaN zoom) with bounds given, the selector
    only returns what the bounds hold: the source position of every arc
    lies within the bounds, and so does the origin of every member, which
    has valid coordinates and moves. *)
Theorem getArcsByZoomLevel_within objs zoom b a :
  JS.le zoom (JS.ofZ 8) = false ->
  In a (getArcsByZoomLevel largeToString objs zoom (Some b)) ->
  pointInBounds b (ClusteredArc.sourcePosition a) = true /\
  Forall (fun o => originWithin b o = true /\ clustered o = true)
         (ClusteredArc.objects a).
Proof. exact (selected_within objs zoom b a). Qed.

Lemma filterArcsByBounds_incl arcs bounds padding a :
  In a (filterArcsByBounds arcs bounds padding) -> In a arcs.
Proof.
  unfold filterArcsByBounds. destruct bounds as [b|]; [|trivial].
  destruct (Nat.eqb (List.length arcs) 0); [trivial|].
  intros H. now apply filter_In in H.
Qed.

(** X12.  [filterArcsByBounds] never drops an arc whose source or target
    lies within the bounds themselves, as long as padding them does not
    shrink them; what it returns are arcs of the input, each with its
    source or its target within the padded bounds. *)
Theorem filterArcsByBounds_inclusive arcs b padding a :
  containsBounds (paddedBounds b padding) b = true ->
  (In a arcs -> arcInBounds b a = true ->
   In a (filterArcsByBounds arcs (Some b) padding)) /\
  (In a (filterArcsByBounds arcs (Some b) padding) ->
   In a arcs /\ arcInBounds (paddedBounds b padding) a = true).
Proof.
  intros Hc. unfold filterArcsByBounds.
  destruct (Nat.eqb (List.length arcs) 0) eqn:E.
  - rewrite (length_zero_nil _ E). split; [trivial|intros []].
  - split.
    + intros Hin Ha. apply filter_In. split; [exact Hin|].
      unfold arcInBounds in *. apply orb_true_iff in Ha.
      apply orb_true_iff.
      destruct Ha as [Ha|Ha]; [left|right];
        now apply (pointInBounds_contained _ b).
    + intros Hin. now apply filter_In in Hin.
Qed.

Lemma add_NaN_r x : JS.add x JS.NaN = JS.NaN.
Proof. now destruct x. Qed.

Lemma sub_NaN_r x : sub x JS.NaN = JS.NaN.
Proof. now destruct x. Qed.

Lemma pointInBounds_NaN b position :
  hasNaNComponent b = true -> pointInBounds b position = false.
Proof.
  unfold hasNaNComponent, pointInBounds. intros H.
  repeat (apply orb_true_iff in H as [H|H]);
    apply isNaN_NaN in H; rewrite H; unfold JS.ge;
    rewrite ?le_NaN_l, ?le_NaN_r, ?andb_false_r; reflexivity.
Qed.

(** X13.  A NaN among the bounds, or a NaN padding, makes
    [filterArcsByBounds] drop every arc. *)
Theorem filterArcsByBounds_NaN arcs b padding :
  hasNaNComponent b = true \/ JS.isNaN padding = true ->
  filterArcsByBounds arcs (Some b) padding = [].
Proof.
  intros H.
  assert (Hp : hasNaNComponent (paddedBounds b padding) = true).
  { destruct H as [H|H].
    - unfold hasNaNComponent in *. simpl.
      repeat (apply orb_true_iff in H as [H|H]);
        apply isNaN_NaN in H; rewrite H; simpl; rewrite ?orb_true_r; reflexivity.
    - apply isNaN_NaN in H. subst padding. unfold hasNaNComponent. simpl.
      now rewrite add_NaN_r. }
  unfold filterArcsByBounds.
  destruct (Nat.eqb (List.length arcs) 0) eqn:E; [now apply length_zero_nil|].
  clear E. induction arcs as [|a arcs IH]; simpl; [reflexivity|].
  unfold arcInBounds at 1. now rewrite !(pointInBounds_NaN _ _ Hp).
Qed.

Lemma filter_all {A} (p : A -> bool) (l : list A) :
  Forall (fun x => p x = true) l -> filter p l = l.
Proof.
  induction 1 as [|x l Hx _ IH]; simpl; [reflexivity|]. now rewrite Hx, IH.
Qed.

(** X14.  The post-filter agrees with the selector: above zoom 8 the arcs
    selected for some bounds all pass [filterArcsByBounds] for the same
    bounds, as long as padding them does not shrink them. *)
Theorem filterArcsByBounds_after_selector objs zoom b padding :
  JS.le zoom (JS.ofZ 8) = false ->
  containsBounds (paddedBounds b padding) b = true ->
  filterArcsByBounds (getArcsByZoomLevel largeToString objs zoom (Some b))
                     (Some b) padding
  = getArcsByZoomLevel largeToString objs zoom (Some b).
Proof.
  intros H8 Hc. unfold filterArcsByBounds.
  destruct (Nat.eqb _ 0); [reflexivity|].
  apply filter_all, Forall_forall. intros a Ha.
  destruct (selected_within _ _ _ _ H8 Ha) as [Hs _].
  unfold arcInBounds. now rewrite (pointInBounds_contained _ b _ Hc Hs).
Qed.

End BoundsFacts.

(** ** The aggregates of aggregateByCountry *)

Section AggregateStructure.

Implicit Types (objs : list MuseumObject) (a : CountryAggregation.t).

(** X15.  [aggregateByCountry] returns one aggregate per label, in the
    order in which the labels are first met in the input: no label comes
    twice, and a label is there exactly when some record carries it. *)
Theorem aggregateByCountry_labels objs :
  map CountryAggregation.country (aggregateByCountry objs) = countries objs /\
  NoDup (map CountryAggregation.country (aggregateByCountry objs)) /\
  forall c, In c (map CountryAggregation.country (aggregateByCountry objs)) <->
            exists obj, In obj objs /\ countryOf obj = Some c.
Proof.
  assert (H : map CountryAggregation.country (aggregateByCountry objs)
              = countries objs).
  { rewrite aggregateByCountry_closed, map_map. simpl. apply map_id. }
  rewrite H. split; [reflexivity|]. split; [apply countries_NoDup|].
  intros c. apply countries_In.
Qed.

(** X16.  The count of an aggregate is the number of its members, which
    is the number of records of the input with its label, and is at
    least one. *)
Theorem aggregateByCountry_count objs a :
  In a (aggregateByCountry objs) ->
  CountryAggregation.count a
  = Z.of_nat (List.length (CountryAggregation.objects a)) /\
  CountryAggregation.count a
  = Z.of_nat (List.length
                (filter (inCountry (CountryAggregation.country a)) objs)) /\
  1 <= CountryAggregation.count a.
Proof.
  intros Ha. apply aggregateByCountry_In in Ha as [c [Hc ->]]. simpl.
  repeat split.
  apply countries_In in Hc as [o [Ho Hc]].
  assert (Hin : In o (filter (inCountry c) objs))
    by (apply filter_In; split; [exact Ho|now apply inCountry_iff]).
  destruct (filter (inCountry c) objs); [destruct Hin|]. simpl List.length. lia.
Qed.

Lemma addToCountry_count obj a :
  CountryAggregation.count (addToCountry obj a) = CountryAggregation.count a + 1.
Proof.
  unfold addToCountry. destruct (_ && _); [destruct (_ && _)|]; reflexivity.
Qed.

Lemma sumCountryCounts_app l1 l2 :
  sumCountryCounts (l1 ++ l2) = sumCountryCounts l1 + sumCountryCounts l2.
Proof. induction l1; simpl; lia. Qed.

Lemma sumCountryCounts_update c obj (m : Map CountryAggregation.t) :
  has c m = true ->
  sumCountryCounts (values (update c (addToCountry obj) m))
  = sumCountryCounts (values m) + 1.
Proof.
  unfold has, values. induction m as [|[k v] m IH]; simpl; [discriminate|].
  destruct (String.eqb c k); simpl; intros H.
  - rewrite addToCountry_count. lia.
  - rewrite IH by exact H. lia.
Qed.

Lemma sumCountryCounts_step m obj :
  sumCountryCounts (values (aggregateByCountry_step m obj))
  = sumCountryCounts (values m) + (if labelled obj then 1 else 0).
Proof.
  unfold aggregateByCountry_step, labelled, countryOf.
  destruct (negb _ || _); [lia|].
  set (c := orUnknown _). destruct (has c m) eqn:E.
  - now apply sumCountryCounts_update.
  - rewrite (set_absent _ _ _ E), (update_app_absent _ _ _ _ E).
    rewrite values_app, sumCountryCounts_app. simpl.
    rewrite addToCountry_count. simpl. lia.
Qed.

(** X17.  The counts of the aggregates add up to the number of records
    that carry a label: every such record is counted once, with or
    without coordinates, and no other record is counted. *)
Theorem aggregateByCountry_count_conservation objs :
  sumCountryCounts (aggregateByCountry objs)
  = Z.of_nat (List.length (filter labelled objs)).
Proof.
  unfold aggregateByCountry.
  destruct (Nat.eqb (List.length objs) 0) eqn:E;
    [now rewrite (length_zero_nil _ E)|]. clear E.
  assert (H : forall l m,
            sumCountryCounts (values (fold_left aggregateByCountry_step l m))
            = sumCountryCounts (values m)
              + Z.of_nat (List.length (filter labelled l))).
  { induction l as [|o l IH]; intros m; simpl; [lia|].
    rewrite IH, sumCountryCounts_step.
    destruct (labelled o); cbn [List.length]; lia. }
  rewrite H. reflexivity.
Qed.

(** X18.  A record that carries a label is a member of the aggregate of
    that label and of no other aggregate. *)
Theorem aggregateByCountry_partition objs obj c :
  In obj objs -> countryOf obj = Some c ->
  exists a,
    In a (aggregateByCountry objs) /\
    CountryAggregation.country a = c /\
    In obj (CountryAggregation.objects a) /\
    forall a', In a' (aggregateByCountry objs) ->
               In obj (CountryAggregation.objects a') -> a' = a.
Proof.
  intros Hin Hc. exists (aggregateOf c (filter (inCountry c) objs)).
  split; [|split; [reflexivity|split]].
  - apply aggregateByCountry_In. exists c. split; [|reflexivity].
    apply countries_In. eauto.
  - simpl. apply filter_In. split; [exact Hin|now apply inCountry_iff].
  - intros a' Ha' Hobj. apply aggregateByCountry_In in Ha' as [c' [_ ->]].
    simpl in Hobj. apply filter_In in Hobj as [_ Hobj].
    apply inCountry_iff in Hobj. congruence.
Qed.

End AggregateStructure.

(** ** The key of an arc determines the rounded coordinates *)

Section KeyFacts.

Variable largeToString : positive -> Z -> string.

Local Open Scope string_scope.

Lemma noChar_append ch (s t : string) :
  noChar ch (s ++ t) = noChar ch s && noChar ch t.
Proof.
  induction s as [|c s IH]; simpl; [reflexivity|].
  now rewrite IH, andb_assoc.
Qed.

(** A string is cut in one way at the first occurrence of [ch]. *)
Lemma split_first ch (p : string) : forall p' X X' : string,
  noChar ch p = true -> noChar ch p' = true ->
  p ++ String ch X = p' ++ String ch X' -> p = p' /\ X = X'.
Proof.
  induction p as [|c p IH]; intros [|c' p'] X X'; simpl; intros Hp Hp' E.
  - injection E as E. now split.
  - injection E as E1 E2. subst c'.
    now rewrite Ascii.eqb_refl in Hp'.
  - injection E as E1 E2. subst c.
    now rewrite Ascii.eqb_refl in Hp.
  - injection E as E1 E2. subst c'.
    apply andb_true_iff in Hp as [_ Hp]. apply andb_true_iff in Hp' as [_ Hp'].
    destruct (IH _ _ _ Hp Hp' E2) as [-> ->]. now split.
Qed.

Lemma string_of_uint_plain (d : Decimal.uint) :
  noChar "," (NilEmpty.string_of_uint d) = true /\
  noChar "-" (NilEmpty.string_of_uint d) = true.
Proof. induction d; simpl; try exact IHd; now split. Qed.

Lemma digits_plain n :
  noChar "," (JS.digits n) = true /\ noChar "-" (JS.digits n) = true.
Proof.
  unfold JS.digits, NilZero.string_of_uint.
  destruct (N.to_uint (Z.to_N n)) eqn:E;
    try (rewrite <- E; apply string_of_uint_plain); now split.
Qed.

Lemma fixed2_plain n :
  noChar "," (JS.fixed2 n) = true /\ noChar "-" (JS.fixed2 n) = true /\
  JS.fixed2 n <> "".
Proof.
  unfold JS.fixed2, JS.twoDigits.
  destruct (digits_plain (n / 100)) as [H1 H2].
  destruct (digits_plain (n mod 100)) as [H3 H4].
  repeat split.
  - rewrite noChar_append, H1. simpl.
    destruct (n mod 100 <? 10)%Z; simpl; exact H3.
  - rewrite noChar_append, H2. simpl.
    destruct (n mod 100 <? 10)%Z; simpl; exact H4.
  - destruct (JS.digits (n / 100)); simpl; discriminate.
Qed.

Lemma toFixed2_signedPlain (x : JS.number) :
  fixedNotation x = true -> signedPlain (JS.toFixed2 largeToString x).
Proof.
  unfold signedPlain.
  destruct x as [s|s| |s m e]; simpl; intros H.
  - exists "0.00". repeat split; [discriminate|now left].
  - exists "Infinity". repeat split; [discriminate|].
    destruct s; [now right|now left].
  - exists "NaN". repeat split; [discriminate|now left].
  - apply negb_true_iff in H. rewrite H.
    destruct (fixed2_plain (JS.scaled100 m e)) as (H1 & H2 & H3).
    exists (JS.fixed2 (JS.scaled100 m e)). repeat split; try assumption.
    destruct s; [now right|now left].
Qed.

Lemma signedPlain_no_comma (s : string) : signedPlain s -> noChar "," s = true.
Proof. intros (body & H1 & _ & _ & [-> | ->]); simpl; exact H1. Qed.

Lemma signed_split (b b' X X' : string) :
  signedPlain b -> signedPlain b' ->
  b ++ String "-" X = b' ++ String "-" X' -> b = b' /\ X = X'.
Proof.
  intros (p & _ & Hp & Hne & Hb) (p' & _ & Hp' & Hne' & Hb') E.
  assert (Hhead : forall (q : string) Y Z,
            noChar "-" q = true -> q <> "" ->
            q ++ String "-" Y <> String "-" Z).
  { intros [|c q] Y Z Hq Hq0; [congruence|]. simpl. intros [= -> _].
    discriminate Hq. }
  destruct Hb as [-> | ->], Hb' as [-> | ->].
  - now apply (split_first "-").
  - exfalso. simpl in E. exact (Hhead p X _ Hp Hne E).
  - exfalso. simpl in E. symmetry in E. exact (Hhead p' X' _ Hp' Hne' E).
  - simpl in E. injection E as E.
    destruct (split_first "-" _ _ _ _ Hp Hp' E) as [-> ->]. now split.
Qed.

(** The template of the key can be read back. *)
Lemma pairKey_inj (a b c d a' b' c' d' : string) :
  signedPlain a -> signedPlain b -> signedPlain c ->
  signedPlain a' -> signedPlain b' -> signedPlain c' ->
  pairKey a b c d = pairKey a' b' c' d' ->
  a = a' /\ b = b' /\ c = c' /\ d = d'.
Proof.
  intros Ha Hb Hc Ha' Hb' Hc'. unfold pairKey.
  change ("," ++ ?x) with (String "," x).
  intros E.
  apply (split_first ",") in E as [-> E];
    try now apply signedPlain_no_comma.
  change ("-" ++ ?x) with (String "-" x) in E.
  apply signed_split in E as [-> E]; try assumption.
  change ("," ++ ?x) with (String "," x) in E.
  apply (split_first ",") in E as [-> ->];
    try now apply signedPlain_no_comma.
  now repeat split.
Qed.

Lemma arcKey_rounded obj obj' :
  fixedCoordinates obj = true -> fixedCoordinates obj' = true ->
  arcKey largeToString obj = arcKey largeToString obj' ->
  roundedCoordinates largeToString obj = roundedCoordinates largeToString obj'.
Proof.
  unfold fixedCoordinates, arcKey, roundedCoordinates, toFixed2.
  intros H H' E.
  repeat (apply andb_true_iff in H as [H ?]).
  repeat (apply andb_true_iff in H' as [H' ?]).
  apply pairKey_inj in E as (-> & -> & -> & ->);
    try (now apply toFixed2_signedPlain). reflexivity.
Qed.

(** X19.  An arc never mixes records that round differently, and never
    splits records that round alike: two members of an arc whose
    coordinates [toFixed] prints in fixed notation have the same four
    rounded coordinates, and a clustered record of the input with the
    rounded coordinates of a member is a member of the same arc. *)
Theorem arc_same_rounding objs maxArcs a obj obj' :
  In a (clusterArcs largeToString objs maxArcs) ->
  In obj (ClusteredArc.objects a) ->
  (In obj' (ClusteredArc.objects a) ->
   fixedCoordinates obj = true -> fixedCoordinates obj' = true ->
   roundedCoordinates largeToString obj = roundedCoordinates largeToString obj')
  /\
  (In obj' objs -> clustered obj' = true ->
   roundedCoordinates largeToString obj' = roundedCoordinates largeToString obj ->
   In obj' (ClusteredArc.objects a)).
Proof.
  intros Ha Hobj.
  pose proof (arc_members largeToString _ _ _ Ha) as Hm.
  assert (Hkey : forall o, In o (ClusteredArc.objects a) ->
                           arcKey largeToString o = ClusteredArc.id a).
  { intros o Ho. rewrite Hm in Ho. apply filter_In in Ho as [_ Ho].
    apply andb_true_iff in Ho as [_ Ho]. now apply String.eqb_eq in Ho. }
  split.
  - intros Hobj' Hf Hf'. apply arcKey_rounded; try assumption.
    now rewrite (Hkey _ Hobj), (Hkey _ Hobj').
  - intros Hin Hc Hr. rewrite Hm. apply filter_In. split; [exact Hin|].
    rewrite Hc. simpl. apply String.eqb_eq. rewrite <- (Hkey _ Hobj).
    unfold roundedCoordinates in Hr. injection Hr as E1 E2 E3 E4.
    unfold arcKey. cbn [fst snd sourcePos targetPos].
    now rewrite E1, E2, E3, E4.
Qed.

End KeyFacts.

(** ** The further properties on the sample data *)

Section MoreSamples.

Import Sample.

Local Open Scope string_scope.

Lemma clusterArcs_members_witness :
  let a := arcOf object "31.00,30.00-13.00,52.00" [cairoToBerlin; cairoToBerlin'] in
  In a (clusterArcs largeToString records 2000) /\
  ClusteredArc.objects a
  = filter (fun o => clustered o
                     && String.eqb (ClusteredArc.id a) (arcKey largeToString o))
           records.
Proof.
  intros a.
  assert (Ha : In a (clusterArcs largeToString records 2000))
    by (vm_compute; right; left; reflexivity).
  split; [exact Ha|].
  exact (clusterArcs_members largeToString records 2000 a Ha).
Defined.

Lemma cluster_positions_witness :
  let a := arcOf object "31.00,30.00-13.00,52.00" [cairoToBerlin; cairoToBerlin'] in
  In a (clusterArcs largeToString records 2000) /\
  exists first rest,
    ClusteredArc.objects a = first :: rest /\
    ClusteredArc.sourcePosition a = sourcePos first.
Proof.
  intros a.
  assert (Ha : In a (clusterArcs largeToString records 2000))
    by (vm_compute; right; left; reflexivity).
  split; [exact Ha|].
  destruct (cluster_positions largeToString records 2000 a (or_introl Ha))
    as (first & rest & H1 & H2 & _).
  exists first, rest. split; assumption.
Defined.

Lemma clusterArcs_partition_witness :
  Z.of_nat (List.length (objectClusters largeToString records)) <= 2000 /\
  In cairoToBerlin' records /\ clustered cairoToBerlin' = true /\
  exists a,
    In a (clusterArcs largeToString records 2000) /\
    In cairoToBerlin' (ClusteredArc.objects a).
Proof.
  assert (Hcap : Z.of_nat (List.length (objectClusters largeToString records))
                 <= 2000) by (vm_compute; discriminate).
  assert (Hin : In cairoToBerlin' records)
    by (vm_compute; right; right; right; right; left; reflexivity).
  assert (Hc : clustered cairoToBerlin' = true) by (vm_compute; reflexivity).
  split; [exact Hcap|]. split; [exact Hin|]. split; [exact Hc|].
  destruct (clusterArcs_partition largeToString records 2000 cairoToBerlin'
              Hcap Hin Hc) as (a & H1 & H2 & _).
  exists a. split; assumption.
Defined.

Lemma countUniqueArcs_le_clusters_witness :
  countUniqueArcs largeToString records
  = Z.of_nat (List.length (objectClusters largeToString records)).
Proof.
  apply (countUniqueArcs_le_clusters largeToString records).
  intros obj [<-|[<-|[<-|[<-|[<-|[<-|[<-|[]]]]]]]] _; vm_compute; reflexivity.
Defined.

Lemma countUniqueArcs_set_witness :
  (forall obj, In obj [accraToLondon; cairoToBerlin] <->
               In obj [cairoToBerlin; accraToLondon; cairoToBerlin]) /\
  countUniqueArcs largeToString [accraToLondon; cairoToBerlin]
  = countUniqueArcs largeToString [cairoToBerlin; accraToLondon; cairoToBerlin].
Proof.
  assert (H : forall obj, In obj [accraToLondon; cairoToBerlin] <->
                          In obj [cairoToBerlin; accraToLondon; cairoToBerlin])
    by (intros obj; simpl; tauto).
  split; [exact H|].
  exact (countUniqueArcs_set largeToString _ _ H).
Defined.

Lemma clusterArcsByCity_members_witness :
  let a := arcOf city "Cairo-to-Berlin" [cairoToBerlin; cairoToBerlin'] in
  In a (clusterArcsByCity records 500) /\
  ClusteredArc.objects a
  = filter (fun o => validCity o && hasKey cityPairKey (ClusteredArc.id a) o)
           records.
Proof.
  intros a.
  assert (Ha : In a (clusterArcsByCity records 500))
    by (vm_compute; right; left; reflexivity).
  split; [exact Ha|].
  exact (proj1 (clusterArcsByCity_members records 500 a Ha)).
Defined.

Lemma clusterArcsByCity_count_conservation_witness :
  Z.of_nat (List.length (cityClusters records)) <= 500 /\
  sumCounts (clusterArcsByCity records 500) = 4.
Proof.
  assert (Hcap : Z.of_nat (List.length (cityClusters records)) <= 500)
    by (vm_compute; discriminate).
  split; [exact Hcap|].
  rewrite (clusterArcsByCity_count_conservation records 500 Hcap).
  vm_compute. reflexivity.
Defined.

Lemma clusterArcsByCity_partition_witness :
  Z.of_nat (List.length (cityClusters records)) <= 500 /\
  In limaToParis records /\ validCity limaToParis = true /\
  cityPairKey limaToParis = Some "Lima-to-Paris" /\
  exists a,
    In a (clusterArcsByCity records 500) /\
    ClusteredArc.id a = "Lima-to-Paris" /\
    In limaToParis (ClusteredArc.objects a).
Proof.
  assert (Hcap : Z.of_nat (List.length (cityClusters records)) <= 500)
    by (vm_compute; discriminate).
  assert (Hin : In limaToParis records)
    by (vm_compute; right; right; right; left; reflexivity).
  assert (Hv : validCity limaToParis = true) by (vm_compute; reflexivity).
  assert (Hk : cityPairKey limaToParis = Some "Lima-to-Paris") by (vm_compute; reflexivity).
  split; [exact Hcap|]. split; [exact Hin|]. split; [exact Hv|].
  split; [exact Hk|].
  destruct (clusterArcsByCity_partition records 500 limaToParis _
              Hcap Hin Hv Hk) as (a & H1 & H2 & H3 & _).
  exists a. repeat split; assumption.
Defined.

Lemma getArcsByZoomLevel_size_witness :
  JS.le (JS.ofZ 2) (JS.ofZ 4) = true /\
  Z.of_nat (List.length
              (getArcsByZoomLevel largeToString records (JS.ofZ 2) None))
  <= 100.
Proof.
  assert (H4 : JS.le (JS.ofZ 2) (JS.ofZ 4) = true) by (vm_compute; reflexivity).
  split; [exact H4|].
  pose proof (getArcsByZoomLevel_size largeToString records (JS.ofZ 2) None)
    as H.
  cbv zeta in H. destruct H as (H & _). exact (H H4).
Defined.

Lemma getArcsByZoomLevel_within_witness :
  let a := arcOf object "5.00,6.00-0.00,51.00" [accraToLondon] in
  JS.le (JS.ofZ 9) (JS.ofZ 8) = false /\
  In a (getArcsByZoomLevel largeToString records (JS.ofZ 9) (Some bounds)) /\
  pointInBounds bounds (ClusteredArc.sourcePosition a) = true.
Proof.
  intros a.
  assert (H8 : JS.le (JS.ofZ 9) (JS.ofZ 8) = false) by (vm_compute; reflexivity).
  assert (Ha : In a (getArcsByZoomLevel largeToString records (JS.ofZ 9)
                       (Some bounds))) by (vm_compute; left; reflexivity).
  split; [exact H8|]. split; [exact Ha|].
  exact (proj1 (getArcsByZoomLevel_within largeToString records (JS.ofZ 9)
                  bounds a H8 Ha)).
Defined.

Lemma filterArcsByBounds_inclusive_witness :
  let a := arcOf object "31.00,30.00-13.00,52.00" [cairoToBerlin; cairoToBerlin'] in
  containsBounds (paddedBounds bounds (JS.ofZ 1)) bounds = true /\
  In a (clusterArcs largeToString records 2000) /\
  arcInBounds bounds a = true /\
  In a (filterArcsByBounds (clusterArcs largeToString records 2000)
                           (Some bounds) (JS.ofZ 1)).
Proof.
  intros a.
  assert (Hc : containsBounds (paddedBounds bounds (JS.ofZ 1)) bounds = true)
    by (vm_compute; reflexivity).
  assert (Ha : In a (clusterArcs largeToString records 2000))
    by (vm_compute; right; left; reflexivity).
  assert (Hb : arcInBounds bounds a = true) by (vm_compute; reflexivity).
  split; [exact Hc|]. split; [exact Ha|]. split; [exact Hb|].
  exact (proj1 (filterArcsByBounds_inclusive _ bounds (JS.ofZ 1) a Hc) Ha Hb).
Defined.

Lemma filterArcsByBounds_NaN_witness :
  hasNaNComponent nanBounds = true /\
  filterArcsByBounds (clusterArcs largeToString records 2000)
                     (Some nanBounds) (JS.ofZ 1) = [].
Proof.
  assert (H : hasNaNComponent nanBounds = true) by (vm_compute; reflexivity).
  split; [exact H|].
  exact (filterArcsByBounds_NaN _ nanBounds (JS.ofZ 1) (or_introl H)).
Defined.

Lemma filterArcsByBounds_after_selector_witness :
  JS.le (JS.ofZ 9) (JS.ofZ 8) = false /\
  containsBounds (paddedBounds bounds (JS.ofZ 1)) bounds = true /\
  filterArcsByBounds
    (getArcsByZoomLevel largeToString records (JS.ofZ 9) (Some bounds))
    (Some bounds) (JS.ofZ 1)
  = getArcsByZoomLevel largeToString records (JS.ofZ 9) (Some bounds).
Proof.
  assert (H8 : JS.le (JS.ofZ 9) (JS.ofZ 8) = false) by (vm_compute; reflexivity).
  assert (Hc : containsBounds (paddedBounds bounds (JS.ofZ 1)) bounds = true)
    by (vm_compute; reflexivity).
  split; [exact H8|]. split; [exact Hc|].
  exact (filterArcsByBounds_after_selector largeToString records (JS.ofZ 9)
           bounds (JS.ofZ 1) H8 Hc).
Defined.

Lemma aggregateByCountry_count_witness :
  let a := aggregateOf "France" [france1; france2] in
  In a (aggregateByCountry [france1; france2; nowhere]) /\
  CountryAggregation.count a = 2.
Proof.
  intros a.
  assert (Ha : In a (aggregateByCountry [france1; france2; nowhere]))
    by (vm_compute; left; reflexivity).
  split; [exact Ha|].
  rewrite (proj1 (aggregateByCountry_count _ a Ha)). vm_compute. reflexivity.
Defined.

Lemma aggregateByCountry_partition_witness :
  In france2 [france1; france2; nowhere] /\
  countryOf france2 = Some "France" /\
  exists a,
    In a (aggregateByCountry [france1; france2; nowhere]) /\
    CountryAggregation.country a = "France" /\
    In france2 (CountryAggregation.objects a).
Proof.
  assert (Hin : In france2 [france1; france2; nowhere])
    by (vm_compute; right; left; reflexivity).
  assert (Hc : countryOf france2 = Some "France") by (vm_compute; reflexivity).
  split; [exact Hin|]. split; [exact Hc|].
  destruct (aggregateByCountry_partition _ _ _ Hin Hc) as (a & H1 & H2 & H3 & _).
  exists a. repeat split; assumption.
Defined.

Lemma arc_same_rounding_witness :
  let a := arcOf object "31.00,30.00-13.00,52.00" [cairoToBerlin; cairoToBerlin'] in
  In a (clusterArcs largeToString records 2000) /\
  In cairoToBerlin (ClusteredArc.objects a) /\
  In cairoToBerlin' (ClusteredArc.objects a) /\
  fixedCoordinates cairoToBerlin = true /\
  fixedCoordinates cairoToBerlin' = true /\
  roundedCoordinates largeToString cairoToBerlin
  = roundedCoordinates largeToString cairoToBerlin'.
Proof.
  intros a.
  assert (Ha : In a (clusterArcs largeToString records 2000))
    by (vm_compute; right; left; reflexivity).
  assert (H1 : In cairoToBerlin (ClusteredArc.objects a)) by (vm_compute; left; reflexivity).
  assert (H2 : In cairoToBerlin' (ClusteredArc.objects a))
    by (vm_compute; right; left; reflexivity).
  assert (F1 : fixedCoordinates cairoToBerlin = true) by (vm_compute; reflexivity).
  assert (F2 : fixedCoordinates cairoToBerlin' = true) by (vm_compute; reflexivity).
  repeat (split; [assumption|]).
  exact (proj1 (arc_same_rounding largeToString records 2000 a
                  cairoToBerlin cairoToBerlin' Ha H1) H2 F1 F2).
Defined.

End MoreSamples.

(** ** The zoom bands *)

Section ZoomBands.

Variable largeToString : positive -> Z -> string.







End ZoomBands.


